(** * ReciprocalTruthEnforcer: a shallow embedding of
      [src/engine/reciprocity_engine.py] and the properties of its
      consent ledger, ingestion gate, artifact lifecycle and audit.

    - The Python class keeps nine fields on [self]; they are the nine
      fields of the record [store].  Types are those of the comments in
      [__init__]: [extractive] a bool, [expires] a [str] or [None], [scope] a
      list of [str]; user ids and artifact ids are [str], and a payload is
      taken through [str(payload)], the only use the engine makes of it.
    - Every method that writes or may raise is a computation in a
      state-and-exception monad [M].  A Python exception does not roll the
      object back, so a computation returns the store it reached together
      with either the exception or the returned value.
    - The clock is an input: a call takes the values it reads from
      [datetime.utcnow()] and [date.today()] as arguments.
    - Dicts and lists are values.  The one update in place,
      [self.consent[user_id]["extractive"] = False], acts on a dict that only
      [self.consent] holds, because a snapshot is a [copy()] of it; the scope
      list a snapshot shares with the consent dict is never updated in place
      by any method.
    - [hashlib], [repr] of a [str], the builtin [hash] and the ISO date
      parser belong to Python, not to the engine: they are the fields of the
      class [PyLib], and every theorem holds for every instance. *)

From Stdlib Require Import QArith Ascii.
From stdpp Require Import gmap strings list fin_maps pretty.

Local Open Scope Z_scope.

(** ** The data model *)

(** [self.consent[user_id]]: a dict with the three keys ["extractive"],
    ["expires"], ["scope"], always inserted in this order. *)
Record ConsentState := mkConsent {
  extractive : bool;
  expires : option string;
  scope : list string
}.

(** One element of [self.receipts[user_id]]. *)
Record ReceiptRecord := mkReceipt {
  timestamp : string;
  receipt : string;
  snapshot : ConsentState
}.

(** One element of [self.receipt_anchor]. *)
Record AnchorEntry := mkAnchor {
  anchor_receipt : string;
  anchor_timestamp : string
}.

(** One element of [self.reuse_log]. *)
Record ReuseLogEntry := mkReuse {
  reuse_artifact_id : string;
  disclosed : bool;
  reuse_timestamp : string
}.

(** The fields set by [__init__]. *)
Record store := mkStore {
  consent : gmap string ConsentState;
  receipts : gmap string (list ReceiptRecord);
  receipt_anchor : list AnchorEntry;
  attribution : gmap string (list string);
  artifact_state : gmap string string;
  reuse_log : list ReuseLogEntry;
  known_users : gset string;
  extractive_ingests : nat;
  published_count : nat
}.

(** [ReciprocalTruthEnforcer()] *)
Definition init : store :=
  mkStore ∅ ∅ [] ∅ ∅ [] ∅ 0%nat 0%nat.

(** Field updates, one per field that a method assigns to. *)
Definition with_consent (f : gmap string ConsentState → gmap string ConsentState)
    (s : store) : store :=
  mkStore (f (consent s)) (receipts s) (receipt_anchor s) (attribution s)
    (artifact_state s) (reuse_log s) (known_users s) (extractive_ingests s)
    (published_count s).

Definition with_receipts
    (f : gmap string (list ReceiptRecord) → gmap string (list ReceiptRecord))
    (s : store) : store :=
  mkStore (consent s) (f (receipts s)) (receipt_anchor s) (attribution s)
    (artifact_state s) (reuse_log s) (known_users s) (extractive_ingests s)
    (published_count s).

Definition with_receipt_anchor (f : list AnchorEntry → list AnchorEntry)
    (s : store) : store :=
  mkStore (consent s) (receipts s) (f (receipt_anchor s)) (attribution s)
    (artifact_state s) (reuse_log s) (known_users s) (extractive_ingests s)
    (published_count s).

Definition with_attribution
    (f : gmap string (list string) → gmap string (list string))
    (s : store) : store :=
  mkStore (consent s) (receipts s) (receipt_anchor s) (f (attribution s))
    (artifact_state s) (reuse_log s) (known_users s) (extractive_ingests s)
    (published_count s).

Definition with_artifact_state (f : gmap string string → gmap string string)
    (s : store) : store :=
  mkStore (consent s) (receipts s) (receipt_anchor s) (attribution s)
    (f (artifact_state s)) (reuse_log s) (known_users s) (extractive_ingests s)
    (published_count s).

Definition with_reuse_log (f : list ReuseLogEntry → list ReuseLogEntry)
    (s : store) : store :=
  mkStore (consent s) (receipts s) (receipt_anchor s) (attribution s)
    (artifact_state s) (f (reuse_log s)) (known_users s) (extractive_ingests s)
    (published_count s).

Definition with_known_users (f : gset string → gset string) (s : store) : store :=
  mkStore (consent s) (receipts s) (receipt_anchor s) (attribution s)
    (artifact_state s) (reuse_log s) (f (known_users s)) (extractive_ingests s)
    (published_count s).

Definition with_extractive_ingests (f : nat → nat) (s : store) : store :=
  mkStore (consent s) (receipts s) (receipt_anchor s) (attribution s)
    (artifact_state s) (reuse_log s) (known_users s) (f (extractive_ingests s))
    (published_count s).

Definition with_published_count (f : nat → nat) (s : store) : store :=
  mkStore (consent s) (receipts s) (receipt_anchor s) (attribution s)
    (artifact_state s) (reuse_log s) (known_users s) (extractive_ingests s)
    (f (published_count s)).

(** ** Exceptions and the method monad *)

Inductive exn :=
| PermissionError (msg : string)
| ValueError (msg : string)
| KeyError (key : string).

Definition M (A : Type) : Type := store → (exn + A) * store.

Global Instance M_ret : MRet M := λ A (a : A) s, (inr a, s).

Global Instance M_bind : MBind M := λ A B (f : A → M B) (m : M A) s,
  match m s with
  | (inl e, s') => (inl e, s')
  | (inr a, s') => f a s'
  end.

Definition raise {A} (e : exn) : M A := λ s, (inl e, s).
Definition gets {A} (f : store → A) : M A := λ s, (inr (f s), s).
Definition modify (f : store → store) : M unit := λ s, (inr (), f s).

(** [d[k]] on a dict: the value, or [KeyError]. *)
Definition subscript {V} (d : store → gmap string V) (k : string) : M V := λ s,
  match d s !! k with
  | Some v => (inr v, s)
  | None => (inl (KeyError k), s)
  end.

(** Whether a computation raised, and the store it left behind. *)
Definition raised {A} (r : (exn + A) * store) : bool :=
  match r.1 with inl _ => true | inr _ => false end.

Definition returned {A} (r : (exn + A) * store) : option A :=
  match r.1 with inl _ => None | inr a => Some a end.

Definition final {A} (r : (exn + A) * store) : store := r.2.

(** ** What the engine takes from Python's library

    Four library functions are used by the engine and are not part of it:
    [hashlib.sha256(b).hexdigest()], [repr] of a [str] (inside [str] of the
    consent dict), the builtin [hash] of a [str], and
    [datetime.fromisoformat(x).date()], whose [ValueError] is [None].  The
    development is parametric in them. *)

(** [datetime.date]: ordered as Python orders it, by year, month, day. *)
Record date := mkDate { year : Z; month : Z; day : Z }.

(** [a > b] on dates. *)
Definition date_gt (a b : date) : bool :=
  if bool_decide (year a = year b) then
    if bool_decide (month a = month b) then bool_decide (day b < day a)
    else bool_decide (month b < month a)
  else bool_decide (year b < year a).

Class PyLib := {
  sha256_hexdigest : string → string;
  repr_str : string → string;
  py_hash : string → Z;
  fromisoformat_date : string → option date
}.

(** ** The methods *)

Section Engine.
Context `{lib : PyLib}.

(** *** ConsentLedger *)

Definition default_consent : ConsentState := mkConsent false None [].

Definition register_user (user_id : string) : M unit :=
  modify (with_known_users (λ k, k ∪ {[user_id]}));;
  c ← gets consent;
  (if bool_decide (is_Some (c !! user_id)) then mret ()
   else modify (with_consent <[user_id := default_consent]>));;
  r ← gets receipts;
  if bool_decide (is_Some (r !! user_id)) then mret ()
  else modify (with_receipts <[user_id := []]>).

(** [str(b)] for a bool, [repr] of [None] or a [str], [repr] of a list of
    [str]: the pieces of [str(consent_obj)]. *)
Definition repr_bool (b : bool) : string := if b then "True" else "False".

Definition repr_optional_str (o : option string) : string :=
  match o with None => "None" | Some e => repr_str e end.

Fixpoint join_comma (l : list string) : string :=
  match l with
  | [] => ""
  | [x] => x
  | x :: rest => x +:+ ", " +:+ join_comma rest
  end.

Definition repr_list_str (l : list string) : string :=
  "[" +:+ join_comma (repr_str <$> l) +:+ "]".

(** [str(consent_obj)]: the keys come out in insertion order, which every
    writer of [self.consent] fixes to extractive, expires, scope. *)
Definition str_consent (c : ConsentState) : string :=
  "{'extractive': " +:+ repr_bool (extractive c) +:+
  ", 'expires': " +:+ repr_optional_str (expires c) +:+
  ", 'scope': " +:+ repr_list_str (scope c) +:+ "}".

(** [hashlib.sha256(f"{user_id}|{str(consent_obj)}".encode()).hexdigest()] *)
Definition receipt_digest (user_id : string) (c : ConsentState) : string :=
  sha256_hexdigest (user_id +:+ "|" +:+ str_consent c).

(** [now] is [datetime.utcnow().isoformat()] as read by this call.
    [consent_obj.copy()] is a new dict holding the same three values, and no
    method updates a scope list in place, so the snapshot is the value of
    the consent state at issuance. *)
Definition _generate_consent_receipt (now : string) (user_id : string) : M string :=
  consent_obj ← subscript consent user_id;
  let receipt := receipt_digest user_id consent_obj in
  let record := mkReceipt now receipt consent_obj in
  history ← subscript receipts user_id;
  modify (with_receipts <[user_id := history ++ [record]]>);;
  modify (with_receipt_anchor (λ a, a ++ [mkAnchor receipt (timestamp record)]));;
  mret receipt.

(** [scope=None] is the default argument. *)
Definition set_consent (now : string) (user_id : string) (extractive : bool)
    (expires : option string) (scope : option (list string)) : M string :=
  register_user user_id;;
  let scope := default [] scope in
  modify (with_consent <[user_id := mkConsent extractive expires scope]>);;
  _generate_consent_receipt now user_id.

Definition revoke_consent (now : string) (user_id : string) : M string :=
  register_user user_id;;
  c ← gets consent;
  (match c !! user_id with
   | Some old =>
       modify (with_consent <[user_id := mkConsent false (expires old) (scope old)]>)
   | None => mret ()
   end);;
  _generate_consent_receipt now user_id.

Definition get_latest_receipt (user_id : string) (s : store) : option string :=
  match receipts s !! user_id with
  | None => None
  | Some h => receipt <$> last h
  end.

Definition get_consent_history (user_id : string) (s : store) : list ReceiptRecord :=
  default [] (receipts s !! user_id).

(** [expires.split('T')[0]]: the text before the first capital T. *)
Fixpoint split_T_first (e : string) : string :=
  match e with
  | EmptyString => EmptyString
  | String c rest =>
      if Ascii.eqb c "T"%char then EmptyString else String c (split_T_first rest)
  end.

(** [today] is [date.today()] as read by this call.  The method neither
    raises nor writes, so it is a function of the store. *)
Definition is_active_extractive (today : date) (user_id : string) (s : store) : bool :=
  match consent s !! user_id with
  | None => false
  | Some c =>
      if negb (extractive c) then false
      else
        match expires c with
        | None => true
        | Some e =>
            if bool_decide (e = "") then true
            else
              match fromisoformat_date (split_T_first e) with
              | Some expiry_date => if date_gt today expiry_date then false else true
              | None => true
              end
        end
  end.

(** *** IngestionGate *)

Definition record_derivative (artifact_id origin_user : string) : M unit :=
  a ← gets attribution;
  (if bool_decide (is_Some (a !! artifact_id)) then mret ()
   else modify (with_attribution <[artifact_id := []]>));;
  l ← subscript attribution artifact_id;
  if bool_decide (origin_user ∈ l) then mret ()
  else modify (with_attribution <[artifact_id := l ++ [origin_user]]>).

Record IngestResult := mkIngestResult {
  status : string;
  result_artifact_id : option string
}.

(** [f"artifact_{hash(str(payload) + str(datetime.utcnow()))}"]; [payload]
    stands for [str(payload)] and [now] for [str(datetime.utcnow())]. *)
Definition make_artifact_id (payload now : string) : string :=
  "artifact_" +:+ pretty (py_hash (payload +:+ now)).

Definition msg_consent_required : string :=
  "Extractive use or scoped access requires active opt-in consent".
Definition msg_scope_not_granted : string :=
  "Required scopes not covered by user consent".

(** Truth value of a list: non-empty. *)
Definition truthy {A} (l : list A) : bool :=
  match l with [] => false | _ => true end.

Definition ingest (today : date) (now : string) (user_id payload : string)
    (extractive : bool) (required_scopes : option (list string)) : M IngestResult :=
  register_user user_id;;
  let required_scopes := default [] required_scopes in
  (if extractive || truthy required_scopes then
     active ← gets (is_active_extractive today user_id);
     (if negb active then raise (PermissionError msg_consent_required)
      else mret ());;
     if truthy required_scopes then
       c ← subscript consent user_id;
       let consent_scope : gset string := list_to_set (scope c) in
       if bool_decide (list_to_set required_scopes ⊆ consent_scope) then mret ()
       else raise (PermissionError msg_scope_not_granted)
     else mret ()
   else mret ());;
  let artifact_id := make_artifact_id payload now in
  (if extractive then
     modify (with_extractive_ingests S);;
     record_derivative artifact_id user_id;;
     modify (with_artifact_state <[artifact_id := "generated"]>)
   else mret ());;
  mret (mkIngestResult "Processed" (if extractive then Some artifact_id else None)).

(** *** ArtifactLifecycle *)

Definition valid_transitions : gmap string (list string) :=
  list_to_map
    [("generated", ["used"; "archived"]);
     ("used", ["published"; "archived"]);
     ("published", ["archived"]);
     ("archived", [])].

Definition msg_not_found (artifact_id : string) : string :=
  "Artifact " +:+ artifact_id +:+ " not found".
Definition msg_invalid_transition (current new_state : string) : string :=
  "Invalid transition: " +:+ current +:+ " → " +:+ new_state.

Definition transition_artifact_state (artifact_id new_state : string) : M unit :=
  st ← gets artifact_state;
  match st !! artifact_id with
  | None => raise (ValueError (msg_not_found artifact_id))
  | Some current =>
      if bool_decide (new_state ∈ default [] (valid_transitions !! current)) then
        (if bool_decide (new_state = "published")
         then modify (with_published_count S) else mret ());;
        modify (with_artifact_state <[artifact_id := new_state]>)
      else raise (ValueError (msg_invalid_transition current new_state))
  end.

Definition log_reuse (now : string) (artifact_id : string) (disclosed : bool) : M unit :=
  st ← gets artifact_state;
  (match st !! artifact_id with
   | Some current =>
       if bool_decide (current ∈ ["generated"; "used"])
       then modify (with_artifact_state <[artifact_id := "used"]>)
       else mret ()
   | None => mret ()
   end);;
  modify (with_reuse_log (λ l, l ++ [mkReuse artifact_id disclosed now])).

(** *** AuditEngine *)

(** Python's floats are modelled by the rationals they approximate:
    [a / b] is the exact quotient and [round(x, 4)] the nearest multiple of
    1/10000, ties to the even one.  (Where the exact quotient is a tie, Python
    rounds the double next to it, which can fall on either side; the statements
    below are about quotients that are not ties, or about bounds that hold on
    either side.) *)
Definition round_half_even (n d : Z) : Z :=
  let q := n `div` d in
  let r := n `mod` d in
  if bool_decide (2 * r < d) then q
  else if bool_decide (d < 2 * r) then q + 1
  else if Z.even q then q else q + 1.

Definition round4 (x : Q) : Q :=
  Qred (Qmake (round_half_even (Qnum x * 10000) (Zpos (Qden x))) 10000).

Definition ratio (a b : nat) : Q :=
  Qdiv (inject_Z (Z.of_nat a)) (inject_Z (Z.of_nat b)).

(** [sum(1 for uid in users if p(uid))], where evaluating [p] may raise. *)
Fixpoint count_where (p : string → M bool) (users : list string) : M nat :=
  match users with
  | [] => mret 0%nat
  | uid :: rest =>
      b ← p uid;
      n ← count_where p rest;
      mret (if b : bool then S n else n)
  end.

Record AuditReport := mkReport {
  RIM_1 : Q;
  RIM_2 : Q;
  RIM_3 : Q;
  RIM_4 : Q;
  RIM_5 : Q;
  RIM_6 : Q;
  total_users : nat;
  active_consenting_users : nat;
  report_extractive_ingests : nat;
  ever_published_artifacts : nat;
  attributed_artifacts : nat;
  total_reuses : nat;
  silent_reuses : nat;
  artifact_states : gmap string nat;
  total_receipts_issued : nat;
  anchored_receipts : nat
}.

Definition state_counts_init : gmap string nat :=
  list_to_map
    [("generated", 0%nat); ("used", 0%nat); ("published", 0%nat); ("archived", 0%nat)].

(** The loop over [self.artifact_state.values()]. *)
Definition count_states (st : gmap string string) : gmap string nat :=
  map_fold
    (λ _ state counts,
       match counts !! state with
       | Some n => <[state := S n]> counts
       | None => counts
       end)
    state_counts_init st.

(** [sum(len(v) for v in self.receipts.values())] *)
Definition sum_receipt_lengths (r : gmap string (list ReceiptRecord)) : nat :=
  map_fold (λ _ v acc, (length v + acc)%nat) 0%nat r.

(** The two guarded lookups of RIM-4 and RIM-5:
    [self.is_active_extractive(uid) and g(self.consent[uid])]. *)
Definition active_and (today : date) (g : ConsentState → bool) (uid : string) : M bool :=
  active ← gets (is_active_extractive today uid);
  if active : bool then
    c ← subscript consent uid;
    mret (g c)
  else mret false.

Definition guarded_ratio (a b : nat) (otherwise : Q) : Q :=
  if bool_decide (0 < b)%nat then round4 (ratio a b) else otherwise.

(** [today] is the value of [date.today()] during the call, taken to be the
    same at each of its reads. *)
Definition audit (today : date) : M AuditReport :=
  users ← gets (λ s, elements (known_users s));
  let total_users := length users in
  active_consenting ← count_where (λ uid, gets (is_active_extractive today uid)) users;
  let rim_1 := guarded_ratio active_consenting total_users 0%Q in
  attributed_artifacts ← gets (λ s, size (attribution s));
  ingests ← gets extractive_ingests;
  let rim_2 := guarded_ratio attributed_artifacts ingests 0%Q in
  log ← gets reuse_log;
  let total_reuses := length log in
  let silent_reuses := length (filter (λ r, disclosed r = false) log) in
  let disclosed_rate :=
    if bool_decide (0 < total_reuses)%nat
    then ratio (total_reuses - silent_reuses) total_reuses else 1%Q in
  let rim_3 := round4 disclosed_rate in
  exp_count ← count_where (active_and today (λ c, bool_decide (is_Some (expires c)))) users;
  let rim_4 := guarded_ratio exp_count active_consenting 0%Q in
  scope_count ← count_where (active_and today (λ c, truthy (scope c))) users;
  let rim_5 := guarded_ratio scope_count active_consenting 0%Q in
  published ← gets published_count;
  let rim_6 := guarded_ratio published ingests 0%Q in
  state_counts ← gets (λ s, count_states (artifact_state s));
  receipts_issued ← gets (λ s, sum_receipt_lengths (receipts s));
  anchored ← gets (λ s, length (receipt_anchor s));
  mret (mkReport rim_1 rim_2 rim_3 rim_4 rim_5 rim_6 total_users active_consenting
          ingests published attributed_artifacts total_reuses silent_reuses
          state_counts receipts_issued anchored).

(** ** Runs of the engine *)

(** One call of a public method with its arguments and its clock reads. *)
Inductive op :=
| RegisterUser (user_id : string)
| SetConsent (now user_id : string) (extractive : bool) (expires : option string)
    (scope : option (list string))
| RevokeConsent (now user_id : string)
| GetLatestReceipt (user_id : string)
| GetConsentHistory (user_id : string)
| IsActiveExtractive (today : date) (user_id : string)
| Ingest (today : date) (now user_id payload : string) (extractive : bool)
    (required_scopes : option (list string))
| RecordDerivative (artifact_id origin_user : string)
| TransitionArtifactState (artifact_id new_state : string)
| LogReuse (now artifact_id : string) (disclosed : bool)
| Audit (today : date).

(** The store after the call, whether it returned or raised. *)
Definition exec (o : op) (s : store) : store :=
  match o with
  | RegisterUser u => final (register_user u s)
  | SetConsent now u e x sc => final (set_consent now u e x sc s)
  | RevokeConsent now u => final (revoke_consent now u s)
  | GetLatestReceipt _ => s
  | GetConsentHistory _ => s
  | IsActiveExtractive _ _ => s
  | Ingest today now u p e rs => final (ingest today now u p e rs s)
  | RecordDerivative a u => final (record_derivative a u s)
  | TransitionArtifactState a n => final (transition_artifact_state a n s)
  | LogReuse now a d => final (log_reuse now a d s)
  | Audit today => final (audit today s)
  end.

Definition run (ops : list op) (s : store) : store :=
  foldl (λ s o, exec o s) s ops.

(** The stores a caller can bring about from a fresh engine. *)
Inductive reachable : store → Prop :=
| reachable_init : reachable init
| reachable_exec s o : reachable s → reachable (exec o s).

End Engine.

(** ** Vocabulary of the statements *)

(** The call raised [PermissionError]. *)
Definition permission_denied {A} (r : (exn + A) * store) : Prop :=
  ∃ msg, r.1 = inl (PermissionError msg).

(** [a < b] on dates, by year, then month, then day. *)
Definition date_before (a b : date) : Prop :=
  year a < year b ∨
  (year a = year b ∧ (month a < month b ∨ (month a = month b ∧ day a < day b))).

(** Whether the character occurs in the text. *)
Fixpoint occurs (c : ascii) (e : string) : bool :=
  match e with
  | EmptyString => false
  | String c' rest => Ascii.eqb c' c || occurs c rest
  end.

(** Two stores with the same consent ledger. *)
Definition same_ledger (s s' : store) : Prop :=
  consent s' = consent s ∧ receipts s' = receipts s ∧
  receipt_anchor s' = receipt_anchor s ∧ known_users s' = known_users s.

Section Vocabulary.
Context `{lib : PyLib}.

(** The user's current scope set; a user without a consent state has
    granted nothing. *)
Definition current_scope (user_id : string) (s : store) : gset string :=
  match consent s !! user_id with
  | Some c => list_to_set (scope c)
  | None => ∅
  end.

(** [sum(1 for uid in self.known_users if self.is_active_extractive(uid))] *)
Definition count_active (today : date) (s : store) : nat :=
  length (filter (λ uid, is_active_extractive today uid s = true)
            (elements (known_users s))).

(** *** Closed forms of the two outcomes the proofs follow *)

(** The store and result of an admitted ingestion. *)
Definition admitted (now u p : string) (e : bool) (s1 : store)
    : (exn + IngestResult) * store :=
  let a := make_artifact_id p now in
  (inr (mkIngestResult "Processed" (if e then Some a else None)),
   if e then
     with_artifact_state <[a := "generated"]>
       (final (record_derivative a u (with_extractive_ingests S s1)))
   else s1).

(** The store after a receipt for consent state [c] is issued to [u]. *)
Definition issued (now u : string) (c : ConsentState) (s1 : store) : store :=
  let d := receipt_digest u c in
  with_receipt_anchor (λ a, a ++ [mkAnchor d now])
    (with_receipts <[u := get_consent_history u s1 ++ [mkReceipt now d c]]>
       (with_consent <[u := c]> s1)).

(** *** Calls of a run *)

(** The artifact id handed out by a call, if it is an extractive ingestion
    that was admitted. *)
Definition created_by (o : op) (s : store) : gset string :=
  match o with
  | Ingest today now u p e rs =>
      match returned (ingest today now u p e rs s) with
      | Some r => match result_artifact_id r with
                  | Some a => {[a]}
                  | None => ∅
                  end
      | None => ∅
      end
  | _ => ∅
  end.

(** The artifact ids handed out along a run. *)
Fixpoint created_artifacts (ops : list op) (s : store) : gset string :=
  match ops with
  | [] => ∅
  | o :: rest => created_by o s ∪ created_artifacts rest (exec o s)
  end.

(** The call is an extractive ingestion that was admitted. *)
Definition admits_extractive (o : op) (s : store) : bool :=
  match o with
  | Ingest today now u p e rs => e && negb (raised (ingest today now u p e rs s))
  | _ => false
  end.

(** The call is a transition into ["published"] that succeeded. *)
Definition publishes (o : op) (s : store) : bool :=
  match o with
  | TransitionArtifactState a n =>
      bool_decide (n = "published")
      && negb (raised (transition_artifact_state a n s))
  | _ => false
  end.

(** The artifact id published by a call, if it is a successful transition
    into ["published"]. *)
Definition published_id (o : op) (s : store) : gset string :=
  match o with
  | TransitionArtifactState a n => if publishes o s then {[a]} else ∅
  | _ => ∅
  end.

(** The artifact ids ever published along a run. *)
Fixpoint published_ids (ops : list op) (s : store) : gset string :=
  match ops with
  | [] => ∅
  | o :: rest => published_id o s ∪ published_ids rest (exec o s)
  end.

(** No ingestion of the run hands out an id that already has an artifact
    state: the ids do not collide. *)
Fixpoint fresh_ids (ops : list op) (s : store) : bool :=
  match ops with
  | [] => true
  | o :: rest =>
      bool_decide (created_by o s ## dom (artifact_state s))
      && fresh_ids rest (exec o s)
  end.

(** How many calls of a run satisfy [test] in the store they start from. *)
Fixpoint count_calls (test : op → store → bool) (ops : list op) (s : store) : nat :=
  match ops with
  | [] => 0%nat
  | o :: rest =>
      ((if test o s then 1 else 0) + count_calls test rest (exec o s))%nat
  end.

(** *** Invariants *)

(** The three ledger invariants. *)
Definition users_agree (s : store) : Prop :=
  known_users s = dom (consent s) ∧ known_users s = dom (receipts s).



(** Every artifact of [P] is published or archived. *)
Definition settled (s : store) (P : gset string) : Prop :=
  ∀ a, a ∈ P →
    artifact_state s !! a = Some "published" ∨
    artifact_state s !! a = Some "archived".

End Vocabulary.

(** ** An instance of the library interface for running scenarios

    The theorems below hold for every [PyLib].  To run the engine on
    concrete calls an instance is needed: the digest and [hash] are simple
    injective-enough stand-ins, [repr] quotes with single quotes (what Python
    prints for text without quotes, backslashes or control characters), and
    the date parser accepts the calendar form YYYY-MM-DD, the one form every
    Python version agrees on. *)

Definition digit_of (c : ascii) : option Z :=
  let n := Z.of_N (N_of_ascii c) in
  if bool_decide (48 ≤ n ≤ 57) then Some (n - 48) else None.

Definition is_leap (y : Z) : bool :=
  bool_decide (y `mod` 4 = 0) && (negb (bool_decide (y `mod` 100 = 0))
                                  || bool_decide (y `mod` 400 = 0)).

Definition days_in_month (y m : Z) : Z :=
  if bool_decide (m = 2) then (if is_leap y then 29 else 28)
  else if bool_decide (m ∈ [4; 6; 9; 11]) then 30 else 31.

Definition sample_fromisoformat (x : string) : option date :=
  match x with
  | String y1 (String y2 (String y3 (String y4 (String sep1
      (String m1 (String m2 (String sep2 (String d1 (String d2 EmptyString))))))))) =>
      a ← digit_of y1; b ← digit_of y2; c ← digit_of y3; d ← digit_of y4;
      e ← digit_of m1; f ← digit_of m2; g ← digit_of d1; h ← digit_of d2;
      let y := 1000 * a + 100 * b + 10 * c + d in
      let m := 10 * e + f in
      let dd := 10 * g + h in
      if Ascii.eqb sep1 "-"%char && Ascii.eqb sep2 "-"%char
         && bool_decide (1 ≤ y) && bool_decide (1 ≤ m ≤ 12)
         && bool_decide (1 ≤ dd ≤ days_in_month y m)
      then Some (mkDate y m dd) else None
  | _ => None
  end.

Fixpoint sample_hash_from (acc : Z) (x : string) : Z :=
  match x with
  | EmptyString => acc
  | String c rest => sample_hash_from (acc * 257 + Z.of_N (N_of_ascii c) + 1) rest
  end.

Definition sample_pylib : PyLib := {|
  sha256_hexdigest := λ payload, "sha256:" +:+ payload;
  repr_str := λ x, "'" +:+ x +:+ "'";
  py_hash := sample_hash_from 0;
  fromisoformat_date := sample_fromisoformat
|}.

(** ** Concrete runs

    The scenario of the engine's documentation, and a run with three
    extractive ingestions of which two artifacts are published and one of
    those archived.  Both are run with [sample_pylib]. *)

Definition demo_today : date := mkDate 2026 11 3.

Definition demo_artifact (payload now : string) : string :=
  make_artifact_id (lib := sample_pylib) payload now.

Definition consent_scenario : list op :=
  [RegisterUser "u1";
   SetConsent "2026-11-03T09:00:00" "u1" true None (Some ["research"])].

Definition ingest_scenario : list op :=
  consent_scenario ++
  [Ingest demo_today "2026-11-03 09:00:01" "u1" "x" true None].

Definition reuse_scenario : list op :=
  ingest_scenario ++
  [TransitionArtifactState (demo_artifact "x" "2026-11-03 09:00:01") "used";
   LogReuse "2026-11-03T09:00:03" (demo_artifact "x" "2026-11-03 09:00:01") false].

Definition publication_scenario : list op :=
  consent_scenario ++
  [Ingest demo_today "2026-11-03 09:00:01" "u1" "x" true None;
   Ingest demo_today "2026-11-03 09:00:02" "u1" "y" true None;
   Ingest demo_today "2026-11-03 09:00:03" "u1" "z" true None;
   TransitionArtifactState (demo_artifact "x" "2026-11-03 09:00:01") "used";
   TransitionArtifactState (demo_artifact "x" "2026-11-03 09:00:01") "published";
   TransitionArtifactState (demo_artifact "y" "2026-11-03 09:00:02") "used";
   TransitionArtifactState (demo_artifact "y" "2026-11-03 09:00:02") "published";
   TransitionArtifactState (demo_artifact "x" "2026-11-03 09:00:01") "archived"].

(** A user whose consent expired on 2026-01-01. *)
Definition expired_scenario : list op :=
  [SetConsent "2025-06-01T12:00:00" "u2" true (Some "2026-01-01T00:00:00") None].

Definition demo_store (ops : list op) : store := run (lib := sample_pylib) ops init.

(** A library whose [hash] collides: it only looks at the length of the
    text, so two payloads of one length ingested at instants of one length
    get one artifact id. *)
Definition colliding_pylib : PyLib := {|
  sha256_hexdigest := λ payload, "sha256:" +:+ payload;
  repr_str := λ x, "'" +:+ x +:+ "'";
  py_hash := λ x, Z.of_nat (String.length x);
  fromisoformat_date := sample_fromisoformat
|}.

Definition colliding_artifact (payload now : string) : string :=
  make_artifact_id (lib := colliding_pylib) payload now.

(** The second ingestion gets the id of the first, after that artifact was
    published. *)
Definition collision_scenario : list op :=
  consent_scenario ++
  [Ingest demo_today "2026-11-03 09:00:01" "u1" "x" true None;
   TransitionArtifactState (colliding_artifact "x" "2026-11-03 09:00:01") "used";
   TransitionArtifactState (colliding_artifact "x" "2026-11-03 09:00:01") "published";
   Ingest demo_today "2026-11-03 09:00:02" "u1" "y" true None;
   TransitionArtifactState (colliding_artifact "y" "2026-11-03 09:00:02") "used";
   TransitionArtifactState (colliding_artifact "y" "2026-11-03 09:00:02") "published";
   Ingest demo_today "2026-11-03 09:00:03" "u1" "zz" true None;
   TransitionArtifactState (colliding_artifact "zz" "2026-11-03 09:00:03") "used";
   TransitionArtifactState (colliding_artifact "zz" "2026-11-03 09:00:03") "published"].

(** The same payload ingested twice at one clock reading: the second
    ingestion is handed the id of the first, whose artifact was published
    already, and puts it back in state generated.  Three ingestions are
    admitted, the two artifacts x and y are published, and x is archived at
    the end. *)
Definition reissue_scenario : list op :=
  consent_scenario ++
  [Ingest demo_today "2026-11-03 09:00:01" "u1" "x" true None;
   TransitionArtifactState (demo_artifact "x" "2026-11-03 09:00:01") "used";
   TransitionArtifactState (demo_artifact "x" "2026-11-03 09:00:01") "published";
   Ingest demo_today "2026-11-03 09:00:01" "u1" "x" true None;
   TransitionArtifactState (demo_artifact "x" "2026-11-03 09:00:01") "used";
   TransitionArtifactState (demo_artifact "x" "2026-11-03 09:00:01") "published";
   Ingest demo_today "2026-11-03 09:00:02" "u1" "y" true None;
   TransitionArtifactState (demo_artifact "y" "2026-11-03 09:00:02") "used";
   TransitionArtifactState (demo_artifact "y" "2026-11-03 09:00:02") "published";
   TransitionArtifactState (demo_artifact "x" "2026-11-03 09:00:01") "archived"].

(** ** Vocabulary of the further properties *)

(** The user a call registers, if it registers one. *)
Definition op_user (o : op) : option string :=
  match o with
  | RegisterUser u => Some u
  | SetConsent _ u _ _ _ => Some u
  | RevokeConsent _ u => Some u
  | Ingest _ _ u _ _ _ => Some u
  | _ => None
  end.

(** The anchor entry written beside a receipt record. *)
Definition anchor_of (r : ReceiptRecord) : AnchorEntry :=
  mkAnchor (receipt r) (timestamp r).

(** The anchor holds the entries of the records in the histories, and only
    those. *)
Definition anchored (s : store) : Prop :=
  (∀ a, a ∈ receipt_anchor s →
     ∃ u h r, receipts s !! u = Some h ∧ r ∈ h ∧ a = anchor_of r) ∧
  (∀ u h r, receipts s !! u = Some h → r ∈ h → anchor_of r ∈ receipt_anchor s).

(** The reuse entries the calls of a run write, in order. *)
Fixpoint reuse_entries (ops : list op) : list ReuseLogEntry :=
  match ops with
  | [] => []
  | LogReuse now a d :: rest => mkReuse a d now :: reuse_entries rest
  | _ :: rest => reuse_entries rest
  end.

(** The origin users recorded for an artifact. *)
Definition origins (artifact_id : string) (s : store) : list string :=
  default [] (attribution s !! artifact_id).

(** Every attribution record names at least one user and no user twice, and
    every artifact with a state has one. *)
Definition attribution_sound (s : store) : Prop :=
  (∀ a l, attribution s !! a = Some l → l ≠ [] ∧ NoDup l) ∧
  dom (artifact_state s) ⊆ dom (attribution s).

(** The four lifecycle states, in lifecycle order, and the place of a state
    in that order (4 for any other text). *)
Definition lifecycle_states : list string :=
  ["generated"; "used"; "published"; "archived"].

Definition state_rank (st : string) : nat :=
  if bool_decide (st = "generated") then 0
  else if bool_decide (st = "used") then 1
  else if bool_decide (st = "published") then 2
  else if bool_decide (st = "archived") then 3
  else 4.

(** Every stored artifact state is one of the four. *)
Definition states_known (s : store) : Prop :=
  ∀ a st, artifact_state s !! a = Some st → st ∈ lifecycle_states.

(** [state_counts[k]] of an audit report, and the sum over the four keys. *)
Definition count_of (k : string) (counts : gmap string nat) : nat :=
  default 0%nat (counts !! k).

Definition total_count (counts : gmap string nat) : nat :=
  (count_of "generated" counts + count_of "used" counts
   + count_of "published" counts + count_of "archived" counts)%nat.

(** A ratio of the report that lies between 0 and 1. *)
Definition unit_ratio (q : Q) : Prop := Qle 0 q ∧ Qle q 1.

(** The artifacts that can still be published: those generated or used. *)
Definition pending (s : store) : gmap string string :=
  filter (λ kv, kv.2 ∈ ["generated"; "used"]) (artifact_state s).

(** Publications so far, and those still possible, fit in the ingestions
    admitted. *)
Definition publication_budget (s : store) : Prop :=
  (published_count s + size (pending s) ≤ extractive_ingests s)%nat.

Section Report.
Context `{lib : PyLib}.

(** The two guards of RIM-4 and RIM-5 as functions of the store. *)
Definition active_with (today : date) (g : ConsentState → bool) (s : store)
    (uid : string) : bool :=
  is_active_extractive today uid s && from_option g false (consent s !! uid).

(** The report of [audit], field by field. *)
Definition audit_report (today : date) (s : store) : AuditReport :=
  let users := elements (known_users s) in
  let active_consenting := count_active today s in
  let ingests := extractive_ingests s in
  let total_reuses := length (reuse_log s) in
  let silent_reuses := length (filter (λ r, disclosed r = false) (reuse_log s)) in
  let exp_count :=
    length (filter
              (λ uid, active_with today (λ c, bool_decide (is_Some (expires c))) s uid
                      = true) users) in
  let scope_count :=
    length (filter (λ uid, active_with today (λ c, truthy (scope c)) s uid = true)
              users) in
  mkReport
    (guarded_ratio active_consenting (length users) 0%Q)
    (guarded_ratio (size (attribution s)) ingests 0%Q)
    (round4 (if bool_decide (0 < total_reuses)%nat
             then ratio (total_reuses - silent_reuses) total_reuses else 1%Q))
    (guarded_ratio exp_count active_consenting 0%Q)
    (guarded_ratio scope_count active_consenting 0%Q)
    (guarded_ratio (published_count s) ingests 0%Q)
    (length users) active_consenting ingests (published_count s)
    (size (attribution s)) total_reuses silent_reuses
    (count_states (artifact_state s))
    (sum_receipt_lengths (receipts s))
    (length (receipt_anchor s)).

End Report.

(** The run makes no direct call of [record_derivative]. *)
Definition no_direct_derivative (ops : list op) : bool :=
  forallb (λ o, match o with RecordDerivative _ _ => false | _ => true end) ops.




(** Calls made after the publication scenario: a reuse of the archived
    artifact and an attempt to bring it back. *)
Definition after_archival : list op :=
  [LogReuse "2026-11-03T10:00:00" (demo_artifact "x" "2026-11-03 09:00:01") true;
   TransitionArtifactState (demo_artifact "x" "2026-11-03 09:00:01") "used"].

(** * Properties *)

(** ** Running the monad *)

Lemma bind_returns {A B} (m : M A) (f : A → M B) (s s1 : store) (a : A) :
  m s = (inr a, s1) → (m ≫= f) s = f a s1.
Proof. intros Hm. unfold mbind, M_bind. by rewrite Hm. Qed.

Lemma subscript_found {V} (d : store → gmap string V) (k : string) (s : store) (v : V) :
  d s !! k = Some v → subscript d k s = (inr v, s).
Proof. intros Hk. unfold subscript. by rewrite Hk. Qed.

Ltac run_M :=
  unfold mbind, M_bind, mret, M_ret, modify, gets, raise, final, raised, returned;
  simpl.

Section Ledger.
Context `{lib : PyLib}.

(** ** [register_user] *)

Lemma register_user_run (u : string) (s : store) :
  register_user u s = (inr (), final (register_user u s)).
Proof.
  unfold register_user. run_M.
  repeat case_bool_decide; reflexivity.
Qed.

Lemma register_user_consent (u u' : string) (s : store) :
  consent (final (register_user u s)) !! u' =
  if decide (u = u') then Some (default default_consent (consent s !! u))
  else consent s !! u'.
Proof.
  unfold register_user. run_M.
  destruct (decide (u = u')) as [<-|Hne].
  - repeat case_bool_decide; simpl;
      repeat match goal with
             | Hs : is_Some _ |- _ => destruct Hs as [? Hs]
             | Hn : ¬ is_Some _ |- _ => apply eq_None_not_Some in Hn
             end; simplify_map_eq; try done.
  - repeat case_bool_decide; simpl; by simplify_map_eq.
Qed.

Lemma register_user_receipts (u u' : string) (s : store) :
  receipts (final (register_user u s)) !! u' =
  if decide (u = u') then Some (default [] (receipts s !! u))
  else receipts s !! u'.
Proof.
  unfold register_user. run_M.
  destruct (decide (u = u')) as [<-|Hne].
  - repeat case_bool_decide; simpl;
      repeat match goal with
             | Hs : is_Some _ |- _ => destruct Hs as [? Hs]
             | Hn : ¬ is_Some _ |- _ => apply eq_None_not_Some in Hn
             end; simplify_map_eq; try done.
  - repeat case_bool_decide; simpl; by simplify_map_eq.
Qed.

Lemma register_user_known (u : string) (s : store) :
  known_users (final (register_user u s)) = known_users s ∪ {[u]}.
Proof. unfold register_user. run_M. by repeat case_bool_decide. Qed.

Lemma register_user_frame (u : string) (s : store) :
  let s' := final (register_user u s) in
  receipt_anchor s' = receipt_anchor s ∧ attribution s' = attribution s ∧
  artifact_state s' = artifact_state s ∧ reuse_log s' = reuse_log s ∧
  extractive_ingests s' = extractive_ingests s ∧
  published_count s' = published_count s.
Proof. unfold register_user. run_M. by repeat case_bool_decide. Qed.

Lemma register_user_active (today : date) (u u' : string) (s : store) :
  is_active_extractive today u' (final (register_user u s)) =
  is_active_extractive today u' s.
Proof.
  unfold is_active_extractive. rewrite register_user_consent.
  destruct (decide (u = u')) as [<-|]; [|done].
  by destruct (consent s !! u).
Qed.


(** ** Receipts *)

Lemma generate_consent_receipt_run (now u : string) (s : store)
    (c : ConsentState) (h : list ReceiptRecord) :
  consent s !! u = Some c → receipts s !! u = Some h →
  _generate_consent_receipt now u s =
  (inr (receipt_digest u c),
   with_receipt_anchor (λ a, a ++ [mkAnchor (receipt_digest u c) now])
     (with_receipts <[u := h ++ [mkReceipt now (receipt_digest u c) c]]> s)).
Proof.
  intros Hc Hh. unfold _generate_consent_receipt.
  rewrite (bind_returns _ _ s s c) by by apply subscript_found.
  rewrite (bind_returns _ _ s s h) by by apply subscript_found.
  reflexivity.
Qed.

Lemma register_user_history (u u' : string) (s : store) :
  get_consent_history u' (final (register_user u s)) = get_consent_history u' s.
Proof.
  unfold get_consent_history. rewrite register_user_receipts.
  destruct (decide (u = u')) as [<-|]; [|done]. done.
Qed.

Lemma register_user_has_history (u : string) (s : store) :
  receipts (final (register_user u s)) !! u =
  Some (get_consent_history u (final (register_user u s))).
Proof.
  unfold get_consent_history. rewrite register_user_receipts.
  by rewrite decide_True.
Qed.

(** [set_consent] in closed form. *)
Lemma set_consent_run (now u : string) (e : bool) (x : option string)
    (sc : option (list string)) (s : store) :
  let c := mkConsent e x (default [] sc) in
  set_consent now u e x sc s =
  (inr (receipt_digest u c), issued now u c (final (register_user u s))).
Proof.
  intros c. unfold set_consent.
  rewrite (bind_returns _ _ _ _ _ (register_user_run u s)).
  rewrite (bind_returns _ _ _
             (with_consent <[u := c]> (final (register_user u s))) ())
    by reflexivity.
  apply generate_consent_receipt_run; simpl.
  - by rewrite lookup_insert_eq.
  - apply register_user_has_history.
Qed.

(** [revoke_consent] in closed form. *)
Lemma revoke_consent_run (now u : string) (s : store) :
  let old := default default_consent (consent s !! u) in
  let c := mkConsent false (expires old) (scope old) in
  revoke_consent now u s =
  (inr (receipt_digest u c), issued now u c (final (register_user u s))).
Proof.
  intros old c. unfold revoke_consent.
  rewrite (bind_returns _ _ _ _ _ (register_user_run u s)).
  rewrite (bind_returns _ _ _ (final (register_user u s))
             (consent (final (register_user u s)))) by reflexivity.
  pose proof (register_user_consent u u s) as Hc.
  rewrite decide_True in Hc by done. rewrite Hc.
  rewrite (bind_returns _ _ _
             (with_consent <[u := c]> (final (register_user u s))) ())
    by reflexivity.
  apply generate_consent_receipt_run; simpl.
  - by rewrite lookup_insert_eq.
  - apply register_user_has_history.
Qed.
End Ledger.

(** ** [ingest] and [record_derivative] *)

Section Gate.
Context `{lib : PyLib}.

Lemma record_derivative_run (a u : string) (s : store) :
  record_derivative a u s = (inr (), final (record_derivative a u s)).
Proof.
  unfold record_derivative, subscript. run_M.
  case_bool_decide as Ha; simpl.
  - destruct Ha as [l Hl]. rewrite Hl. simpl. by case_bool_decide.
  - rewrite lookup_insert_eq. simpl. repeat case_bool_decide; done.
Qed.

Lemma record_derivative_frame (a u : string) (s : store) :
  let s' := final (record_derivative a u s) in
  consent s' = consent s ∧ receipts s' = receipts s ∧
  receipt_anchor s' = receipt_anchor s ∧ artifact_state s' = artifact_state s ∧
  reuse_log s' = reuse_log s ∧ known_users s' = known_users s ∧
  extractive_ingests s' = extractive_ingests s ∧
  published_count s' = published_count s.
Proof.
  unfold record_derivative, subscript. run_M.
  case_bool_decide as Ha; simpl.
  - destruct Ha as [l Hl]. rewrite Hl. simpl. by case_bool_decide.
  - rewrite lookup_insert_eq. simpl. repeat case_bool_decide; done.
Qed.

(** [ingest] in closed form: registration, then the two checks, then the
    bookkeeping of an admitted call. *)
Lemma ingest_run (today : date) (now u p : string) (e : bool)
    (rs : option (list string)) (s : store) :
  let s1 := final (register_user u s) in
  let required := default [] rs in
  ingest today now u p e rs s =
  if e || truthy required then
    if negb (is_active_extractive today u s)
    then (inl (PermissionError msg_consent_required), s1)
    else if truthy required
            && negb (bool_decide (list_to_set required ⊆ current_scope u s))
         then (inl (PermissionError msg_scope_not_granted), s1)
         else admitted now u p e s1
  else admitted now u p e s1.
Proof.
  intros s1 required. unfold ingest.
  rewrite (bind_returns _ _ _ _ _ (register_user_run u s)).
  fold s1. fold required.
  match goal with
  | |- (_ ≫= ?k) s1 = _ =>
      assert (Hadm : k () s1 = admitted now u p e s1);
      [| revert Hadm; generalize k; intros K Hadm]
  end.
  { unfold admitted. destruct e; [|reflexivity].
    run_M. rewrite record_derivative_run. reflexivity. }
  assert (Hact1 : is_active_extractive today u s1 = is_active_extractive today u s)
    by apply register_user_active.
  destruct (e || truthy required) eqn:Hgate; [|by run_M].
  run_M. rewrite Hact1.
  destruct (is_active_extractive today u s) eqn:Hact; simpl; [|reflexivity].
  destruct (truthy required) eqn:Hreq; simpl; [|done].
  assert (∃ c, consent s !! u = Some c) as [c Hc].
  { unfold is_active_extractive in Hact.
    destruct (consent s !! u) as [c|]; [eauto | discriminate]. }
  assert (Hc1 : consent s1 !! u = Some c).
  { unfold s1. rewrite register_user_consent, decide_True by done. by rewrite Hc. }
  rewrite (subscript_found _ _ _ _ Hc1).
  unfold current_scope. rewrite Hc.
  case_bool_decide; simpl; done.
Qed.

End Gate.

(** ** The artifact lifecycle *)

Section Lifecycle.
Context `{lib : PyLib}.

Lemma transition_artifact_state_run (a n : string) (s : store) :
  transition_artifact_state a n s =
  match artifact_state s !! a with
  | None => (inl (ValueError (msg_not_found a)), s)
  | Some current =>
      if bool_decide (n ∈ default [] (valid_transitions !! current))
      then (inr (),
            with_artifact_state <[a := n]>
              (if bool_decide (n = "published")
               then with_published_count S s else s))
      else (inl (ValueError (msg_invalid_transition current n)), s)
  end.
Proof.
  unfold transition_artifact_state. run_M.
  destruct (artifact_state s !! a) as [current|]; [|reflexivity].
  case_bool_decide; [|reflexivity].
  by case_bool_decide.
Qed.

Lemma log_reuse_run (now a : string) (d : bool) (s : store) :
  log_reuse now a d s =
  (inr (),
   with_reuse_log (λ l, l ++ [mkReuse a d now])
     (match artifact_state s !! a with
      | Some current =>
          if bool_decide (current ∈ ["generated"; "used"])
          then with_artifact_state <[a := "used"]> s else s
      | None => s
      end)).
Proof.
  unfold log_reuse. run_M.
  destruct (artifact_state s !! a) as [current|]; [|reflexivity].
  by case_bool_decide.
Qed.

Lemma valid_transitions_other (k : string) :
  k ∉ ["generated"; "used"; "published"; "archived"] →
  valid_transitions !! k = None.
Proof. intros Hk. by apply not_elem_of_list_to_map_1. Qed.

End Lifecycle.

(** ** The audit *)

Section AuditEngine.
Context `{lib : PyLib}.

Lemma count_where_run (p : string → M bool) (q : string → bool)
    (users : list string) (s : store) :
  (∀ uid, uid ∈ users → p uid s = (inr (q uid), s)) →
  count_where p users s = (inr (length (filter (λ uid, q uid = true) users)), s).
Proof.
  induction users as [|uid rest IH]; intros Hp; [reflexivity|].
  simpl. rewrite (bind_returns _ _ _ _ _ (Hp uid ltac:(left))).
  rewrite (bind_returns _ _ _ _ _ (IH (λ v Hv, Hp v ltac:(by right)))).
  unfold mret, M_ret. destruct (q uid) eqn:Hq.
  - by rewrite filter_cons_True.
  - rewrite filter_cons_False; [done|]. by rewrite Hq.
Qed.

(** The guarded lookup [self.consent[uid]] is reached only for a user whose
    consent state was just read by [is_active_extractive]. *)
Lemma active_and_run (today : date) (g : ConsentState → bool) (uid : string)
    (s : store) :
  active_and today g uid s =
  (inr (is_active_extractive today uid s
        && from_option g false (consent s !! uid)), s).
Proof.
  unfold active_and. run_M.
  destruct (is_active_extractive today uid s) eqn:Hact; [|reflexivity].
  unfold is_active_extractive in Hact. unfold subscript.
  destruct (consent s !! uid) as [c|]; [reflexivity | discriminate].
Qed.

(** [audit] returns on every store, leaves it as it was, and reads the
    counters as follows. *)
Lemma audit_run (today : date) (s : store) :
  ∃ rep, audit today s = (inr rep, s) ∧
    total_users rep = size (known_users s) ∧
    active_consenting_users rep = count_active today s ∧
    RIM_1 rep = guarded_ratio (count_active today s) (size (known_users s)) 0%Q ∧
    RIM_6 rep = guarded_ratio (published_count s) (extractive_ingests s) 0%Q ∧
    report_extractive_ingests rep = extractive_ingests s ∧
    ever_published_artifacts rep = published_count s ∧
    total_receipts_issued rep = sum_receipt_lengths (receipts s) ∧
    anchored_receipts rep = length (receipt_anchor s).
Proof.
  unfold audit.
  rewrite (bind_returns _ _ s s (elements (known_users s))) by reflexivity.
  rewrite (bind_returns _ _ s s (count_active today s))
    by (by apply count_where_run).
  run_M.
  rewrite (count_where_run _
             (λ uid, is_active_extractive today uid s
                     && from_option (λ c, bool_decide (is_Some (expires c)))
                          false (consent s !! uid)))
    by (intros; apply active_and_run).
  rewrite (count_where_run _
             (λ uid, is_active_extractive today uid s
                     && from_option (λ c, truthy (scope c))
                          false (consent s !! uid)))
    by (intros; apply active_and_run).
  eexists. split; [reflexivity|]. simpl. done.
Qed.

End AuditEngine.

(** ** What one call does to the consent ledger *)

Section Runs.
Context `{lib : PyLib}.

Lemma same_ledger_refl (s : store) : same_ledger s s.
Proof. by repeat split. Qed.

(** A call leaves the ledger alone, or registers a user, or registers a
    user and issues a receipt. *)
Lemma exec_ledger_effect (o : op) (s : store) :
  same_ledger s (exec o s)
  ∨ (∃ u, same_ledger (final (register_user u s)) (exec o s))
  ∨ (∃ now u c, exec o s = issued now u c (final (register_user u s))).
Proof.
  destruct o as [u|now u e x sc|now u|u|u|today u|today now u p e rs|a u|a n
                |now a d|today]; simpl.
  - right; left. exists u. apply same_ledger_refl.
  - right; right. rewrite set_consent_run. simpl. eauto.
  - right; right. rewrite revoke_consent_run. simpl. eauto.
  - left. apply same_ledger_refl.
  - left. apply same_ledger_refl.
  - left. apply same_ledger_refl.
  - right; left. exists u. rewrite ingest_run.
    assert (Hadm : same_ledger (final (register_user u s))
                     (final (admitted now u p e (final (register_user u s))))).
    { unfold admitted, final; simpl. destruct e; [|apply same_ledger_refl].
      pose proof (record_derivative_frame (make_artifact_id p now) u
                    (with_extractive_ingests S (final (register_user u s))))
        as (Hc & Hr & Ha & _ & _ & Hk & _).
      unfold final in *. by repeat split. }
    repeat match goal with
           | |- context [if ?b then _ else _] => destruct b
           end; try apply Hadm; apply same_ledger_refl.
  - left. pose proof (record_derivative_frame a u s) as (? & ? & ? & _ & _ & ? & _).
    by repeat split.
  - left. rewrite transition_artifact_state_run.
    destruct (artifact_state s !! a); [|apply same_ledger_refl].
    repeat case_bool_decide; by repeat split.
  - left. rewrite log_reuse_run. unfold final; simpl.
    destruct (artifact_state s !! a); [|by repeat split].
    case_bool_decide; by repeat split.
  - left. destruct (audit_run today s) as (rep & -> & _). apply same_ledger_refl.
Qed.

(** The proof scheme shared by the ledger invariants. *)
Lemma exec_preserves (I : store → Prop) :
  (∀ s s', same_ledger s s' → I s → I s') →
  (∀ s u, I s → I (final (register_user u s))) →
  (∀ s1 now u c, I s1 → u ∈ known_users s1 →
     receipts s1 !! u = Some (get_consent_history u s1) →
     I (issued now u c s1)) →
  ∀ s o, I s → I (exec o s).
Proof.
  intros Hsame Hreg Hissue s o HI.
  destruct (exec_ledger_effect o s) as [Hs|[(u & Hs)|(now & u & c & ->)]].
  - by apply (Hsame s).
  - apply (Hsame (final (register_user u s))); [done|]. by apply Hreg.
  - apply Hissue.
    + by apply Hreg.
    + rewrite register_user_known. set_solver.
    + apply register_user_has_history.
Qed.

Lemma reachable_preserves (I : store → Prop) :
  I init → (∀ s o, I s → I (exec o s)) → ∀ s, reachable s → I s.
Proof. intros Hinit Hstep s Hs. induction Hs; auto. Qed.

Lemma reachable_run (ops : list op) (s : store) :
  reachable s → reachable (run ops s).
Proof.
  revert s. induction ops as [|o ops IH]; intros s Hs; [done|].
  simpl. apply IH. by constructor.
Qed.

Lemma run_reachable (s : store) : reachable s → ∃ ops, s = run ops init.
Proof.
  induction 1 as [|s o _ [ops ->]].
  - by exists [].
  - exists (ops ++ [o]). unfold run. by rewrite foldl_app.
Qed.

End Runs.

(** ** The ledger invariants *)

Section Invariants.
Context `{lib : PyLib}.

Lemma register_user_dom_consent (u : string) (s : store) :
  dom (consent (final (register_user u s))) = dom (consent s) ∪ {[u]}.
Proof.
  apply set_eq. intros k.
  rewrite elem_of_union, !elem_of_dom, elem_of_singleton, register_user_consent.
  destruct (decide (u = k)) as [->|Hne].
  - split; [by right | by eexists].
  - split; [by left | by intros [?| ->]].
Qed.

Lemma register_user_dom_receipts (u : string) (s : store) :
  dom (receipts (final (register_user u s))) = dom (receipts s) ∪ {[u]}.
Proof.
  apply set_eq. intros k.
  rewrite elem_of_union, !elem_of_dom, elem_of_singleton, register_user_receipts.
  destruct (decide (u = k)) as [->|Hne].
  - split; [by right | by eexists].
  - split; [by left | by intros [?| ->]].
Qed.

Lemma register_user_receipts_map (u : string) (s : store) :
  receipts (final (register_user u s)) =
  match receipts s !! u with
  | Some _ => receipts s
  | None => <[u := []]> (receipts s)
  end.
Proof.
  apply map_eq. intros k. rewrite register_user_receipts.
  destruct (decide (u = k)) as [<-|Hne];
    destruct (receipts s !! u) eqn:Hu; by simplify_map_eq.
Qed.

Lemma users_agree_exec (s : store) (o : op) :
  users_agree s → users_agree (exec o s).
Proof.
  apply exec_preserves; clear s o.
  - intros s s' (Hc & Hr & _ & Hk) Hs. unfold users_agree in *. by rewrite Hc, Hr, Hk.
  - intros s u [Hc Hr]. unfold users_agree.
    rewrite register_user_known, register_user_dom_consent,
      register_user_dom_receipts. by rewrite <-Hc, <-Hr.
  - intros s1 now u c [Hc Hr] Hu _. unfold users_agree, issued; simpl.
    rewrite !dom_insert_L, <-Hc, <-Hr.
    assert ({[u]} ∪ known_users s1 = known_users s1) as ->; [|done].
    by apply subseteq_union_1_L, singleton_subseteq_l.
Qed.





Lemma users_agree_reachable (s : store) : reachable s → users_agree s.
Proof.
  apply reachable_preserves; [|apply users_agree_exec].
  unfold users_agree, init; simpl. by rewrite !dom_empty_L.
Qed.





End Invariants.

(** ** The consent ledger: receipts, anchoring, revocation *)

Section LedgerClaims.
Context `{lib : PyLib}.

(** Issuing a receipt after registration appends one record to the user's
    history and one entry to the anchor, and touches no other history. *)
Lemma issued_appends (now u : string) (c : ConsentState) (s : store) :
  let s' := issued now u c (final (register_user u s)) in
  let rec := mkReceipt now (receipt_digest u c) c in
  consent s' !! u = Some c ∧
  get_consent_history u s' = get_consent_history u s ++ [rec] ∧
  receipt_anchor s' = receipt_anchor s ++ [mkAnchor (receipt rec) (timestamp rec)] ∧
  ∀ u', u' ≠ u → get_consent_history u' s' = get_consent_history u' s.
Proof.
  intros s' rec. unfold s', issued, get_consent_history; simpl.
  destruct (register_user_frame u s) as (Ha & _).
  repeat split.
  - by rewrite lookup_insert_eq.
  - rewrite lookup_insert_eq. simpl. rewrite register_user_receipts.
    by rewrite decide_True.
  - by rewrite Ha.
  - intros u' Hne. rewrite lookup_insert_ne by done.
    rewrite register_user_receipts. by rewrite decide_False.
Qed.



(** C7: whatever the consent state before, [revoke_consent] returns and
    leaves the user inactive at every date; a consent state the user already
    had keeps its [expires] and [scope], and a user who had none gets the
    default state. *)
Theorem revoke_consent_deactivates_and_keeps_expiry_and_scope :
  ∀ now u s today,
    let r := revoke_consent now u s in
    raised r = false ∧
    is_active_extractive today u (final r) = false ∧
    (∀ c, consent s !! u = Some c →
       consent (final r) !! u = Some (mkConsent false (expires c) (scope c))) ∧
    (consent s !! u = None → consent (final r) !! u = Some default_consent).
Proof.
  intros now u s today r. unfold r. rewrite revoke_consent_run.
  set (old := default default_consent (consent s !! u)).
  destruct (issued_appends now u (mkConsent false (expires old) (scope old)) s)
    as (Hc & _).
  set (s' := issued now u _ (final (register_user u s))) in *.
  unfold final, raised. cbn [fst snd].
  split; [done|]. split.
  - unfold is_active_extractive. by rewrite Hc.
  - split.
    + intros c Hsc. rewrite Hc. unfold old. by rewrite Hsc.
    + intros Hsc. rewrite Hc. unfold old. by rewrite Hsc.
Qed.

(** C10: in every reachable store the known users are exactly the users
    with a consent state and exactly the users with a receipt history; every
    call preserves this; so for each known user the lookup
    [self.consent[uid]] succeeds and [audit] returns a report. *)
Theorem known_users_are_the_consent_and_receipt_keys :
  (∀ s, reachable s →
     known_users s = dom (consent s) ∧ known_users s = dom (receipts s)) ∧
  (∀ s o,
     known_users s = dom (consent s) ∧ known_users s = dom (receipts s) →
     known_users (exec o s) = dom (consent (exec o s)) ∧
     known_users (exec o s) = dom (receipts (exec o s))) ∧
  (∀ s uid, reachable s → uid ∈ known_users s →
     ∃ c, subscript consent uid s = (inr c, s)) ∧
  (∀ s today, reachable s → ∃ rep, audit today s = (inr rep, s)).
Proof.
  split; [|split; [|split]].
  - intros s Hs. by apply users_agree_reachable.
  - intros s o Hs. by apply users_agree_exec.
  - intros s uid Hs Hin.
    destruct (users_agree_reachable s Hs) as [Hc _].
    rewrite Hc in Hin. apply elem_of_dom in Hin as [c Hc'].
    exists c. by apply subscript_found.
  - intros s today _. destruct (audit_run today s) as (rep & Hrun & _). eauto.
Qed.

End LedgerClaims.

(** ** The ingestion gate *)

Section GateClaims.
Context `{lib : PyLib}.

Lemma not_subseteq_missing (l : list string) (X : gset string) :
  ¬ (list_to_set l ⊆ X) ↔ ∃ x, x ∈ l ∧ x ∉ X.
Proof.
  split.
  - intros Hsub.
    assert (¬ Forall (λ x, x ∈ X) l) as Hall.
    { intros Hall. apply Hsub. intros x Hx%elem_of_list_to_set.
      by apply (proj1 (Forall_forall _ _) Hall). }
    apply not_Forall_Exists in Hall; [|apply _].
    apply Exists_exists in Hall as (x & Hx & Hnx). eauto.
  - intros (x & Hx & Hnx) Hsub. apply Hnx, Hsub. by apply elem_of_list_to_set.
Qed.

Lemma truthy_nonempty {A} (l : list A) : truthy l = true ↔ l ≠ [].
Proof. by destruct l. Qed.

Lemma admitted_returns (now u p : string) (e : bool) (s1 : store) :
  raised (admitted now u p e s1) = false.
Proof. reflexivity. Qed.

(** C1: [ingest] raises [PermissionError] exactly when enforcement runs
    (the call is extractive or names required scopes) and the user is not
    actively consenting or lacks one of the required scopes; it raises nothing
    else; in particular an extractive call for an inactive user is denied; and
    a denied call creates no artifact state, no attribution and does not count
    as an extractive ingestion.  The inactive user gets the consent message,
    the active user with a missing scope the scope message. *)
Theorem ingest_denied_iff_consent_or_scope_missing :
  ∀ today now u p e rs s,
    let r := ingest today now u p e rs s in
    let required := default [] rs in
    ((permission_denied r ↔
        (e = true ∨ required ≠ []) ∧
        (is_active_extractive today u s = false ∨
         ∃ x, x ∈ required ∧ x ∉ current_scope u s)) ∧
     (raised r = true → permission_denied r) ∧
     (e = true → is_active_extractive today u s = false → permission_denied r) ∧
     (permission_denied r →
        artifact_state (final r) = artifact_state s ∧
        attribution (final r) = attribution s ∧
        extractive_ingests (final r) = extractive_ingests s)) ∧
    (e = true ∨ required ≠ [] → is_active_extractive today u s = false →
       r.1 = inl (PermissionError msg_consent_required)) ∧
    (is_active_extractive today u s = true →
       (∃ x, x ∈ required ∧ x ∉ current_scope u s) →
       r.1 = inl (PermissionError msg_scope_not_granted)).
Proof.
  intros today now u p e rs s r required. unfold r. rewrite ingest_run.
  fold required.
  set (s1 := final (register_user u s)).
  split; [|split].
  2: { intros Hrun Hact. rewrite Hact. simpl.
       destruct (e || truthy required) eqn:Hgate; [done|].
       apply orb_false_iff in Hgate as [-> Hreq].
       destruct Hrun as [?|Hne]; [done|].
       apply truthy_nonempty in Hne. congruence. }
  2: { intros Hact (x & Hx & Hmiss). rewrite Hact. simpl.
       assert (truthy required = true) as ->.
       { destruct required; [by apply elem_of_nil in Hx | done]. }
       rewrite orb_true_r. simpl.
       rewrite bool_decide_eq_false_2; [done|].
       apply not_subseteq_missing. eauto. }
  set (C := (e = true ∨ required ≠ []) ∧
            (is_active_extractive today u s = false ∨
             ∃ x, x ∈ required ∧ x ∉ current_scope u s)).
  match goal with
  | |- (permission_denied ?r0 ↔ _) ∧ _ =>
      pattern r0;
      match goal with |- ?Q r0 => set (P := Q) end
  end.
  assert (Hden : ∀ msg, C → P (inl (PermissionError msg), s1)).
  { intros msg HC. unfold P.
    assert (permission_denied
              (@inl exn IngestResult (PermissionError msg), s1)) by by eexists.
    destruct (register_user_frame u s) as (_ & Hattr & Hart & _ & Hcount & _).
    split; [by split|]. split; [done|]. split; [done|]. intros _. by repeat split. }
  assert (Hadm : ¬ C → P (admitted now u p e s1)).
  { intros HC. unfold P.
    assert (Hno : ¬ permission_denied (admitted now u p e s1)).
    { intros [msg Hmsg]. discriminate. }
    split; [by split|]. split; [by rewrite admitted_returns|].
    split; [|done]. intros He Hi. destruct HC. split; auto. }
  destruct (e || truthy required) eqn:Hgate.
  - assert (e = true ∨ required ≠ []) as Hrun.
    { apply orb_true_iff in Hgate as [?|?%truthy_nonempty]; auto. }
    destruct (is_active_extractive today u s) eqn:Hact; simpl.
    + destruct (truthy required) eqn:Hreq; simpl.
      * case_bool_decide as Hsub; simpl.
        -- apply Hadm. intros (_ & [?|Hmiss]); [done|].
           by apply not_subseteq_missing in Hmiss.
        -- apply Hden. split; [done|]. right. by apply not_subseteq_missing.
      * apply Hadm. intros (_ & [?|(x & Hx & _)]); [done|].
        destruct required; [by apply elem_of_nil in Hx | done].
    + apply Hden. split; auto.
  - apply orb_false_iff in Hgate as [-> Hreq].
    apply Hadm. intros ([?|Hne] & _); [done|].
    apply truthy_nonempty in Hne. congruence.
Qed.

Lemma ingest_raised_final (today : date) (now u p : string) (e : bool)
    (rs : option (list string)) (s : store) :
  raised (ingest today now u p e rs s) = true →
  final (ingest today now u p e rs s) = final (register_user u s).
Proof.
  rewrite ingest_run.
  repeat match goal with
         | |- context [if ?b then _ else _] => destruct b
         end; try reflexivity; by rewrite admitted_returns.
Qed.

(** Registering a user who was unknown and has no consent state adds one
    user and no active one. *)
Lemma register_user_counts (day : date) (u : string) (s : store) :
  u ∉ known_users s → consent s !! u = None →
  size (known_users (final (register_user u s))) = S (size (known_users s)) ∧
  count_active day (final (register_user u s)) = count_active day s.
Proof.
  intros Hnew Hnone. rewrite register_user_known. split.
  - rewrite size_union by set_solver. rewrite size_singleton. lia.
  - unfold count_active. rewrite register_user_known.
    rewrite (list_filter_iff _ (λ uid, is_active_extractive day uid s = true))
      by (intros uid; by rewrite register_user_active).
    assert (elements (known_users s ∪ {[u]}) ≡ₚ u :: elements (known_users s))
      as ->.
    { rewrite (comm_L (∪)). by apply elements_union_singleton. }
    rewrite filter_cons_False; [done|].
    unfold is_active_extractive. by rewrite Hnone.
Qed.

(** C9: when [ingest] raises, the store it leaves is the store after
    [register_user]: the user is known, a user without a consent state or
    receipt history has been given the default state and an empty history,
    and an existing consent state is untouched.  For a user who was unknown,
    [audit] afterwards counts one more user and no more active ones, and
    there is a run in which this lowers RIM-1. *)
Theorem denied_ingest_still_registers_the_user :
  (∀ today now u p e rs s,
     let r := ingest today now u p e rs s in
     raised r = true →
     final r = final (register_user u s) ∧
     u ∈ known_users (final r) ∧
     (consent s !! u = None → consent (final r) !! u = Some default_consent) ∧
     (receipts s !! u = None → receipts (final r) !! u = Some []) ∧
     (∀ c, consent s !! u = Some c → consent (final r) !! u = Some c)) ∧
  (∀ today now u p e rs s day,
     let r := ingest today now u p e rs s in
     raised r = true → reachable s → u ∉ known_users s →
     ∃ rep rep',
       audit day s = (inr rep, s) ∧ audit day (final r) = (inr rep', final r) ∧
       total_users rep' = S (total_users rep) ∧
       active_consenting_users rep' = active_consenting_users rep) ∧
  (∃ today now u p s rep rep',
     reachable s ∧ (u ∉ known_users s) ∧
     raised (ingest today now u p true None s) = true ∧
     audit today s = (inr rep, s) ∧
     ((audit today (final (ingest today now u p true None s))).1 = inr rep') ∧
     Qlt (RIM_1 rep') (RIM_1 rep)).
Proof.
  split; [|split].
  - intros today now u p e rs s r Hr. unfold r.
    rewrite (ingest_raised_final _ _ _ _ _ _ _ Hr).
    split; [done|]. split; [rewrite register_user_known; set_solver|].
    rewrite register_user_consent, register_user_receipts, !decide_True by done.
    split; [by intros ->|]. split; [by intros ->|]. by intros c ->.
  - intros today now u p e rs s day r Hr Hs Hnew. unfold r.
    rewrite (ingest_raised_final _ _ _ _ _ _ _ Hr).
    assert (consent s !! u = None) as Hnone.
    { destruct (users_agree_reachable s Hs) as [Hc _]. rewrite Hc in Hnew.
      by apply not_elem_of_dom. }
    destruct (register_user_counts day u s Hnew Hnone) as [Hsize Hact].
    destruct (audit_run day s) as (rep & Hrep & Ht & Ha & _).
    destruct (audit_run day (final (register_user u s)))
      as (rep' & Hrep' & Ht' & Ha' & _).
    exists rep, rep'. split; [done|]. split; [done|].
    rewrite Ht, Ht', Ha, Ha'. by split.
  - set (s := exec (SetConsent "t0" "alice" true None None) init).
    set (today := mkDate 2026 1 1).
    assert (Hr : raised (ingest today "t1" "bob" "x" true None s) = true)
      by (rewrite ingest_run; reflexivity).
    destruct (audit_run today s) as (rep & Hrep & _ & _ & H1 & _).
    destruct (audit_run today (final (ingest today "t1" "bob" "x" true None s)))
      as (rep' & Hrep' & _ & _ & H1' & _).
    exists today, "t1", "bob", "x", s, rep, rep'.
    split; [apply reachable_exec, reachable_init|].
    split; [by vm_compute|]. split; [done|]. split; [done|].
    split; [by rewrite Hrep'|].
    rewrite H1, H1'. by vm_compute.
Qed.

End GateClaims.

(** ** Artifacts and counters along a run *)

Section Artifacts.
Context `{lib : PyLib}.

Lemma admitted_effect (now u p : string) (e : bool) (s1 : store) :
  let s' := final (admitted now u p e s1) in
  artifact_state s' =
    (if e then <[make_artifact_id p now := "generated"]> (artifact_state s1)
     else artifact_state s1) ∧
  extractive_ingests s' =
    (if e then S (extractive_ingests s1) else extractive_ingests s1) ∧
  published_count s' = published_count s1.
Proof.
  unfold admitted, final; simpl. destruct e; [|done].
  pose proof (record_derivative_frame (make_artifact_id p now) u
                (with_extractive_ingests S s1))
    as (_ & _ & _ & Hst & _ & _ & Hei & Hpc).
  unfold final in *. simpl in *. by rewrite Hst, Hei, Hpc.
Qed.

Lemma artifact_dom_kept (s s' : store) (X : gset string) :
  artifact_state s' = artifact_state s →
  dom (artifact_state s') ⊆ dom (artifact_state s) ∪ X.
Proof. intros ->. apply union_subseteq_l. Qed.

Lemma artifact_dom_updated (s : store) (a n : string) (X : gset string) :
  is_Some (artifact_state s !! a) →
  dom (<[a := n]> (artifact_state s)) ⊆ dom (artifact_state s) ∪ X.
Proof. intros Ha. rewrite dom_insert_lookup_L by done. apply union_subseteq_l. Qed.

(** A call adds an artifact state only for the id it hands out. *)
Lemma exec_artifact_dom (o : op) (s : store) :
  dom (artifact_state (exec o s)) ⊆ dom (artifact_state s) ∪ created_by o s.
Proof.
  destruct o as [u|now u e x sc|now u|u|u|today u|today now u p e rs|a u|a n
                |now a d|today]; simpl; try apply union_subseteq_l.
  - apply artifact_dom_kept, register_user_frame.
  - rewrite set_consent_run. apply artifact_dom_kept, register_user_frame.
  - rewrite revoke_consent_run. apply artifact_dom_kept, register_user_frame.
  - rewrite ingest_run.
    destruct (register_user_frame u s) as (_ & _ & Hst & _).
    destruct (admitted_effect now u p e (final (register_user u s))) as (Ha & _).
    assert (Hadm :
      dom (artifact_state (final (admitted now u p e (final (register_user u s)))))
      ⊆ dom (artifact_state s)
        ∪ match returned (admitted now u p e (final (register_user u s))) with
          | Some r => match result_artifact_id r with
                      | Some a => {[a]}
                      | None => ∅
                      end
          | None => ∅
          end).
    { rewrite Ha, Hst. unfold admitted, returned; simpl.
      destruct e; [|apply union_subseteq_l].
      rewrite dom_insert_L. by rewrite (comm_L (∪)). }
    destruct (e || truthy (default [] rs)); [|apply Hadm].
    destruct (negb (is_active_extractive today u s));
      [by apply artifact_dom_kept|].
    destruct (truthy (default [] rs) && _);
      [by apply artifact_dom_kept | apply Hadm].
  - apply artifact_dom_kept, record_derivative_frame.
  - rewrite transition_artifact_state_run.
    destruct (artifact_state s !! a) as [current|] eqn:Ha;
      [|apply union_subseteq_l].
    case_bool_decide; [|apply union_subseteq_l].
    unfold final; simpl. case_bool_decide; simpl; by apply artifact_dom_updated.
  - rewrite log_reuse_run. unfold final; simpl.
    destruct (artifact_state s !! a) as [current|] eqn:Ha;
      [|apply union_subseteq_l].
    case_bool_decide; simpl; [|apply union_subseteq_l].
    by apply artifact_dom_updated.
  - destruct (audit_run today s) as (rep & -> & _). apply union_subseteq_l.
Qed.

Lemma run_artifact_dom (ops : list op) (s : store) :
  dom (artifact_state (run ops s))
  ⊆ dom (artifact_state s) ∪ created_artifacts ops s.
Proof.
  revert s. induction ops as [|o ops IH]; intros s; simpl;
    [apply union_subseteq_l|].
  etrans; [apply IH|]. apply union_least.
  - etrans; [apply exec_artifact_dom|]. apply union_mono_l, union_subseteq_l.
  - etrans; [|apply union_subseteq_r]. apply union_subseteq_r.
Qed.

(** The two counters move only on a successful publication and on an
    admitted extractive ingestion, by one. *)
Lemma exec_counters (o : op) (s : store) :
  published_count (exec o s) =
    (published_count s + if publishes o s then 1 else 0)%nat ∧
  extractive_ingests (exec o s) =
    (extractive_ingests s + if admits_extractive o s then 1 else 0)%nat.
Proof.
  destruct o as [u|now u e x sc|now u|u|u|today u|today now u p e rs|a u|a n
                |now a d|today]; simpl; try (split; lia).
  - destruct (register_user_frame u s) as (_ & _ & _ & _ & -> & ->). lia.
  - rewrite set_consent_run. unfold issued, final; simpl.
    destruct (register_user_frame u s) as (_ & _ & _ & _ & He & Hp).
    unfold final in *. rewrite He, Hp. lia.
  - rewrite revoke_consent_run. unfold issued, final; simpl.
    destruct (register_user_frame u s) as (_ & _ & _ & _ & He & Hp).
    unfold final in *. rewrite He, Hp. lia.
  - rewrite ingest_run.
    destruct (register_user_frame u s) as (_ & _ & _ & _ & He & Hp).
    destruct (admitted_effect now u p e (final (register_user u s)))
      as (_ & Hae & Hap).
    assert (Hadm :
      published_count (final (admitted now u p e (final (register_user u s))))
        = (published_count s + 0)%nat ∧
      extractive_ingests (final (admitted now u p e (final (register_user u s))))
        = (extractive_ingests s +
           if e && negb (raised (admitted now u p e (final (register_user u s))))
           then 1 else 0)%nat).
    { rewrite Hae, Hap, He, Hp, admitted_returns. destruct e; simpl; lia. }
    assert (Hden : ∀ msg,
      published_count (final (@inl exn IngestResult (PermissionError msg),
                              final (register_user u s)))
        = (published_count s + 0)%nat ∧
      extractive_ingests (final (@inl exn IngestResult (PermissionError msg),
                                 final (register_user u s)))
        = (extractive_ingests s +
           if e && negb (raised (@inl exn IngestResult (PermissionError msg),
                                 final (register_user u s)))
           then 1 else 0)%nat).
    { intros msg. unfold raised; simpl. rewrite andb_false_r.
      change (final (inl (PermissionError msg), final (register_user u s)))
        with (final (register_user u s)).
      rewrite He, Hp. lia. }
    destruct (e || truthy (default [] rs)); [|apply Hadm].
    destruct (negb (is_active_extractive today u s)); [apply Hden|].
    destruct (truthy (default [] rs) && _); [apply Hden | apply Hadm].
  - destruct (record_derivative_frame a u s) as (_ & _ & _ & _ & _ & _ & -> & ->).
    lia.
  - rewrite transition_artifact_state_run.
    destruct (artifact_state s !! a) as [current|]; unfold raised, final; simpl.
    + repeat case_bool_decide; simpl; lia.
    + rewrite andb_false_r. lia.
  - rewrite log_reuse_run. unfold final; simpl.
    destruct (artifact_state s !! a); [case_bool_decide|]; simpl; lia.
  - destruct (audit_run today s) as (rep & -> & _). unfold final; simpl. lia.
Qed.

Lemma run_counters (ops : list op) (s : store) :
  published_count (run ops s) =
    (published_count s + count_calls publishes ops s)%nat ∧
  extractive_ingests (run ops s) =
    (extractive_ingests s + count_calls admits_extractive ops s)%nat.
Proof.
  revert s. induction ops as [|o ops IH]; intros s; simpl; [lia|].
  destruct (IH (exec o s)) as [-> ->].
  destruct (exec_counters o s) as [-> ->]. lia.
Qed.

End Artifacts.

(** ** Published artifacts along a run *)

Section Publications.
Context `{lib : PyLib}.

(** What one call does to the artifact states. *)
Lemma exec_artifact_state (o : op) (s : store) :
  artifact_state (exec o s) =
  match o with
  | Ingest today now u p e rs =>
      if admits_extractive o s
      then <[make_artifact_id p now := "generated"]> (artifact_state s)
      else artifact_state s
  | TransitionArtifactState a n =>
      if raised (transition_artifact_state a n s) then artifact_state s
      else <[a := n]> (artifact_state s)
  | LogReuse now a d =>
      match artifact_state s !! a with
      | Some current =>
          if bool_decide (current ∈ ["generated"; "used"])
          then <[a := "used"]> (artifact_state s) else artifact_state s
      | None => artifact_state s
      end
  | _ => artifact_state s
  end.
Proof.
  destruct o as [u|now u e x sc|now u|u|u|today u|today now u p e rs|a u|a n
                |now a d|today]; simpl; try reflexivity.
  - apply register_user_frame.
  - rewrite set_consent_run. apply register_user_frame.
  - rewrite revoke_consent_run. apply register_user_frame.
  - rewrite ingest_run.
    destruct (register_user_frame u s) as (_ & _ & Hst & _).
    destruct (admitted_effect now u p e (final (register_user u s))) as (Ha & _).
    assert (Hadm :
      artifact_state (final (admitted now u p e (final (register_user u s)))) =
      if e && negb (raised (admitted now u p e (final (register_user u s))))
      then <[make_artifact_id p now := "generated"]> (artifact_state s)
      else artifact_state s).
    { rewrite Ha, Hst, admitted_returns. by destruct e. }
    destruct (e || truthy (default [] rs)); [|apply Hadm].
    destruct (negb (is_active_extractive today u s)).
    { unfold raised, final; simpl. by rewrite andb_false_r. }
    destruct (truthy (default [] rs) && _); [|apply Hadm].
    unfold raised, final; simpl. by rewrite andb_false_r.
  - apply record_derivative_frame.
  - rewrite transition_artifact_state_run.
    destruct (artifact_state s !! a) as [current|]; [|reflexivity].
    case_bool_decide; [|reflexivity].
    unfold raised, final; simpl. by case_bool_decide.
  - rewrite log_reuse_run. unfold final; simpl.
    destruct (artifact_state s !! a) as [current|]; [|reflexivity].
    by case_bool_decide.
  - by destruct (audit_run today s) as (rep & -> & _).
Qed.

(** A publication succeeds only from state used. *)
Lemma publishes_from_used (a n : string) (s : store) :
  publishes (TransitionArtifactState a n) s = true →
  n = "published" ∧ artifact_state s !! a = Some "used".
Proof.
  unfold publishes. rewrite transition_artifact_state_run.
  intros [Hn Hr]%andb_true_iff. apply bool_decide_eq_true in Hn as ->.
  split; [done|].
  destruct (artifact_state s !! a) as [current|]; [|done].
  case_bool_decide as Hin; [|done]. f_equal.
  destruct (decide (current ∈ ["generated"; "used"; "published"; "archived"]))
    as [Hc|Hc].
  - repeat (apply elem_of_cons in Hc as [->|Hc]); try done;
      try (exfalso; revert Hin; compute_done).
    by apply elem_of_nil in Hc.
  - rewrite valid_transitions_other in Hin by done. by apply elem_of_nil in Hin.
Qed.

(** A settled artifact stays settled, and a publication settles a new one,
    as long as no ingestion reuses an id. *)
Lemma exec_settled (o : op) (s : store) (P : gset string) :
  settled s P → created_by o s ## dom (artifact_state s) →
  settled (exec o s) (P ∪ published_id o s) ∧
  (publishes o s = true → ∃ a, published_id o s = {[a]} ∧ a ∉ P) ∧
  (publishes o s = false → published_id o s = ∅).
Proof.
  intros HP Hfresh.
  assert (Hkeep : ∀ X, X = ∅ → artifact_state (exec o s) = artifact_state s →
            settled (exec o s) (P ∪ X)).
  { intros X -> Hst a Ha. rewrite Hst. apply HP.
    by rewrite union_empty_r_L in Ha. }
  pose proof (exec_artifact_state o s) as Hst.
  destruct o as [u|now u e x sc|now u|u|u|today u|today now u p e rs|a u|a n
                |now a d|today];
    try (split; [by apply Hkeep | split; [done | done]]).
  - split; [|split; [done|done]].
    intros a Ha. cbn [published_id] in Ha. rewrite union_empty_r_L in Ha.
    rewrite Hst.
    destruct (admits_extractive _ s) eqn:Hadm; [|by apply HP].
    assert (make_artifact_id p now ≠ a) as Hne.
    { intros <-. apply (Hfresh (make_artifact_id p now)).
      - unfold admits_extractive in Hadm. simpl.
        apply andb_true_iff in Hadm as [-> Hr].
        rewrite ingest_run in Hr |- *.
        destruct (true || truthy (default [] rs)); [|apply elem_of_singleton_2; done].
        destruct (negb (is_active_extractive today u s)); [done|].
        destruct (truthy (default [] rs) && _); [done|].
        by apply elem_of_singleton_2.
      - apply elem_of_dom. destruct (HP _ Ha) as [-> | ->]; eauto. }
    rewrite lookup_insert_ne by done. by apply HP.
  - (* a transition *)
    set (s' := exec (TransitionArtifactState a n) s) in *.
    simpl in Hst. unfold published_id.
    destruct (publishes (TransitionArtifactState a n) s) eqn:Hpub.
    + destruct (publishes_from_used a n s Hpub) as [-> Hused].
      assert (a ∉ P) as HaP.
      { intros Ha. destruct (HP a Ha) as [Hp|Hp]; congruence. }
      split; [|split; [eauto|done]].
      assert (raised (transition_artifact_state a "published" s) = false) as Hr.
      { unfold publishes in Hpub. apply andb_true_iff in Hpub as [_ Hr].
        by apply negb_true_iff in Hr. }
      rewrite Hr in Hst.
      intros a' [Ha'|Ha']%elem_of_union; rewrite Hst.
      * rewrite lookup_insert_ne by congruence. by apply HP.
      * apply elem_of_singleton in Ha' as ->. rewrite lookup_insert_eq. by left.
    + split; [|split; [done|done]].
      intros a' Ha'. rewrite union_empty_r_L in Ha'. rewrite Hst.
      destruct (raised (transition_artifact_state a n s)) eqn:Hr; [by apply HP|].
      destruct (decide (a = a')) as [<-|Hne];
        [|rewrite lookup_insert_ne by done; by apply HP].
      rewrite lookup_insert_eq. right. f_equal.
      rewrite transition_artifact_state_run in Hr.
      destruct (HP a Ha') as [Hc|Hc]; rewrite Hc in Hr;
        case_bool_decide as Hin; try done.
      * by apply list_elem_of_singleton in Hin.
      * by apply elem_of_nil in Hin.
  - (* a reuse *)
    split; [|split; [done|done]].
    intros a' Ha'. cbn [published_id] in Ha'. rewrite union_empty_r_L in Ha'.
    rewrite Hst.
    destruct (artifact_state s !! a) as [current|] eqn:Hcur; [|by apply HP].
    case_bool_decide as Hin; [|by apply HP].
    destruct (decide (a = a')) as [<-|Hne];
      [|rewrite lookup_insert_ne by done; by apply HP].
    exfalso. destruct (HP a Ha') as [Hc|Hc]; rewrite Hc in Hcur;
      injection Hcur as <-; revert Hin; compute_done.
Qed.

Lemma run_published_ids (ops : list op) (s : store) (P : gset string) :
  settled s P → fresh_ids ops s = true →
  (published_count (run ops s) + size P =
   published_count s + size (P ∪ published_ids ops s))%nat.
Proof.
  revert s P. induction ops as [|o ops IH]; intros s P HP Hfresh; simpl.
  - by rewrite union_empty_r_L.
  - simpl in Hfresh. apply andb_true_iff in Hfresh as [Hnow Hrest].
    apply bool_decide_eq_true in Hnow.
    destruct (exec_settled o s P HP Hnow) as (HP' & Hyes & Hno).
    pose proof (IH (exec o s) _ HP' Hrest) as Hrun.
    destruct (exec_counters o s) as [Hcount _].
    rewrite Hcount in Hrun. rewrite <-(assoc_L (∪)) in Hrun.
    destruct (publishes o s).
    + destruct (Hyes eq_refl) as (a & Ha & HaP). rewrite Ha in Hrun.
      assert (size (P ∪ {[a]}) = S (size P)) as Hsize.
      { rewrite size_union; [rewrite size_singleton; lia|].
        by apply disjoint_singleton_r. }
      rewrite Ha. lia.
    + rewrite (Hno eq_refl) in Hrun |- *.
      rewrite union_empty_r_L in Hrun. lia.
Qed.

End Publications.

(** ** The artifact lifecycle: transitions, publication count, reuse *)

Section LifecycleClaims.
Context `{lib : PyLib}.

Lemma transition_allowed (a n current : string) (s : store) :
  artifact_state s !! a = Some current →
  n ∈ default [] (valid_transitions !! current) →
  transition_artifact_state a n s =
  (inr (),
   with_artifact_state <[a := n]>
     (if bool_decide (n = "published") then with_published_count S s else s)).
Proof.
  intros Ha Hn. rewrite transition_artifact_state_run, Ha.
  by rewrite bool_decide_eq_true_2.
Qed.

Lemma transition_refused (a n current : string) (s : store) :
  artifact_state s !! a = Some current →
  n ∉ default [] (valid_transitions !! current) →
  transition_artifact_state a n s =
  (inl (ValueError (msg_invalid_transition current n)), s).
Proof.
  intros Ha Hn. rewrite transition_artifact_state_run, Ha.
  by rewrite bool_decide_eq_false_2.
Qed.

(** C4: [transition_artifact_state] raises [ValueError] "not found" for
    every id that no admitted extractive ingestion of the run handed out, and
    [ValueError] "invalid transition" whenever the new state is not listed for
    the current one in the table generated: used, archived; used: published,
    archived; published: archived; archived: nothing.  A listed transition
    succeeds and stores the new state.  So generated to published is refused,
    generated, used, published, archived succeeds step by step, and nothing is
    accepted from archived. *)
Theorem transition_follows_the_lifecycle_table :
  (∀ ops a n,
     a ∉ created_artifacts ops init →
     transition_artifact_state a n (run ops init) =
     (inl (ValueError (msg_not_found a)), run ops init)) ∧
  (valid_transitions !! "generated" = Some ["used"; "archived"] ∧
   valid_transitions !! "used" = Some ["published"; "archived"] ∧
   valid_transitions !! "published" = Some ["archived"] ∧
   valid_transitions !! "archived" = Some [] ∧
   ∀ k, k ∉ ["generated"; "used"; "published"; "archived"] →
        valid_transitions !! k = None) ∧
  (∀ s a current n,
     artifact_state s !! a = Some current →
     n ∉ default [] (valid_transitions !! current) →
     transition_artifact_state a n s =
     (inl (ValueError (msg_invalid_transition current n)), s)) ∧
  (∀ s a current n,
     artifact_state s !! a = Some current →
     n ∈ default [] (valid_transitions !! current) →
     let r := transition_artifact_state a n s in
     r.1 = inr () ∧ artifact_state (final r) = <[a := n]> (artifact_state s)) ∧
  (∀ s a,
     artifact_state s !! a = Some "generated" →
     raised (transition_artifact_state a "published" s) = true) ∧
  (∀ s a,
     artifact_state s !! a = Some "generated" →
     let r1 := transition_artifact_state a "used" s in
     let r2 := transition_artifact_state a "published" (final r1) in
     let r3 := transition_artifact_state a "archived" (final r2) in
     r1.1 = inr () ∧ r2.1 = inr () ∧ r3.1 = inr () ∧
     artifact_state (final r1) !! a = Some "used" ∧
     artifact_state (final r2) !! a = Some "published" ∧
     artifact_state (final r3) !! a = Some "archived") ∧
  (∀ s a n,
     artifact_state s !! a = Some "archived" →
     raised (transition_artifact_state a n s) = true).
Proof.
  split; [|split; [|split; [|split; [|split; [|split]]]]].
  - intros ops a n Hnew. rewrite transition_artifact_state_run.
    assert (artifact_state (run ops init) !! a = None) as ->; [|done].
    apply not_elem_of_dom. intros Hin.
    apply (run_artifact_dom ops init) in Hin.
    apply elem_of_union in Hin as [Hin|Hin]; [|done].
    unfold init in Hin; simpl in Hin. rewrite dom_empty_L in Hin.
    by apply not_elem_of_empty in Hin.
  - repeat split; try reflexivity. apply valid_transitions_other.
  - intros s a current n. apply transition_refused.
  - intros s a current n Ha Hn r. unfold r.
    rewrite (transition_allowed a n current s Ha Hn). unfold final; simpl.
    split; [done|]. by case_bool_decide.
  - intros s a Ha. rewrite (transition_refused a "published" "generated" s Ha).
    + reflexivity.
    + compute_done.
  - intros s a Ha r1 r2 r3.
    assert (H1 : r1 = (inr (), with_artifact_state <[a := "used"]> s)).
    { unfold r1. rewrite (transition_allowed a "used" "generated" s Ha); [done|].
      compute_done. }
    assert (H2 : r2 = (inr (), with_artifact_state <[a := "published"]>
                              (with_published_count S (final r1)))).
    { unfold r2. rewrite (transition_allowed a "published" "used"); [done| |].
      - rewrite H1. unfold final; simpl. apply lookup_insert_eq.
      - compute_done. }
    assert (H3 : r3 = (inr (), with_artifact_state <[a := "archived"]> (final r2))).
    { unfold r3. rewrite (transition_allowed a "archived" "published"); [done| |].
      - rewrite H2. unfold final; simpl. apply lookup_insert_eq.
      - compute_done. }
    rewrite H3, H2, H1. unfold final; simpl.
    rewrite !lookup_insert_eq. by repeat split.
  - intros s a n Ha. rewrite (transition_refused a n "archived" s Ha).
    + reflexivity.
    + change (default [] (valid_transitions !! "archived")) with (@nil string).
      apply not_elem_of_nil.
Qed.

(** C5, as amended: a successful transition into ["published"] adds exactly
    one to [published_count]; no call ever lowers it, and a transition to any
    other state (archiving included) leaves it as it was.  Along a run from a
    fresh engine the counter is the number of successful transitions into
    ["published"], and [extractive_ingests] the number of admitted extractive
    ingestions; so after 3 admitted extractive ingestions and 2 successful
    transitions into ["published"], however many artifacts were archived
    since, [audit] reports RIM-6 = 0.6667.  The counter is the number of
    distinct artifacts ever published when no ingestion hands out an artifact
    id that is already in use, and then 3 admitted ingestions with 2 distinct
    artifacts published give RIM-6 = 0.6667.  Without that condition an id
    handed out again puts a published artifact back in state generated, the
    artifact can be published again, and it is counted again. *)
Theorem published_count_is_ever_published :
  (∀ s a,
     let r := transition_artifact_state a "published" s in
     raised r = false → published_count (final r) = S (published_count s)) ∧
  (∀ s o, (published_count s ≤ published_count (exec o s))%nat) ∧
  (∀ s a n,
     n ≠ "published" →
     published_count (final (transition_artifact_state a n s)) = published_count s) ∧
  (∀ ops,
     published_count (run ops init) = count_calls publishes ops init ∧
     extractive_ingests (run ops init) = count_calls admits_extractive ops init) ∧
  (∀ ops today,
     count_calls admits_extractive ops init = 3%nat →
     count_calls publishes ops init = 2%nat →
     ∃ rep, audit today (run ops init) = (inr rep, run ops init) ∧
       RIM_6 rep = Qmake 6667 10000) ∧
  (∀ ops,
     fresh_ids ops init = true →
     published_count (run ops init) = size (published_ids ops init)) ∧
  (∀ ops today,
     fresh_ids ops init = true →
     count_calls admits_extractive ops init = 3%nat →
     size (published_ids ops init) = 2%nat →
     ∃ rep, audit today (run ops init) = (inr rep, run ops init) ∧
       RIM_6 rep = Qmake 6667 10000).
Proof.
  assert (Hids : ∀ ops, fresh_ids ops init = true →
            published_count (run ops init) = size (published_ids ops init)).
  { intros ops Hfresh.
    assert (settled init ∅) as Hnone by (by intros a Ha%not_elem_of_empty).
    pose proof (run_published_ids ops init ∅ Hnone Hfresh) as Hrun.
    rewrite union_empty_l_L, size_empty in Hrun.
    change (published_count init) with 0%nat in Hrun. lia. }
  split; [|split; [|split; [|split; [|split; [|split]]]]].
  - intros s a r. unfold r. rewrite transition_artifact_state_run.
    destruct (artifact_state s !! a); [|done].
    case_bool_decide; [|done]. intros _. reflexivity.
  - intros s o. destruct (exec_counters o s) as [-> _]. lia.
  - intros s a n Hn. rewrite transition_artifact_state_run.
    destruct (artifact_state s !! a); [|done].
    case_bool_decide; [|done]. unfold final; simpl.
    by rewrite bool_decide_eq_false_2.
  - intros ops. destruct (run_counters ops init) as [-> ->]. done.
  - intros ops today Hi Hp.
    destruct (audit_run today (run ops init))
      as (rep & Hrun & _ & _ & _ & H6 & _).
    exists rep. split; [done|]. rewrite H6.
    destruct (run_counters ops init) as [-> ->]. rewrite Hi, Hp. reflexivity.
  - exact Hids.
  - intros ops today Hfresh Hi Hp.
    destruct (audit_run today (run ops init))
      as (rep & Hrun & _ & _ & _ & H6 & _).
    exists rep. split; [done|]. rewrite H6, (Hids ops Hfresh), Hp.
    destruct (run_counters ops init) as [_ ->]. rewrite Hi. reflexivity.
Qed.

(** C8: [log_reuse] never raises and appends exactly one entry to the reuse
    log, whether or not the artifact has a state.  An artifact in state
    generated or used is put in state used (no change if it was used
    already); an artifact in state published or archived, and every other
    artifact, keeps its state; nothing else in the store changes. *)
Theorem log_reuse_appends_and_marks_used :
  ∀ now a d s,
    let r := log_reuse now a d s in
    r.1 = inr () ∧
    reuse_log (final r) = reuse_log s ++ [mkReuse a d now] ∧
    (artifact_state s !! a = None → artifact_state (final r) = artifact_state s) ∧
    (∀ current, artifact_state s !! a = Some current →
       current = "generated" ∨ current = "used" →
       artifact_state (final r) = <[a := "used"]> (artifact_state s)) ∧
    (artifact_state s !! a = Some "used" →
       artifact_state (final r) = artifact_state s) ∧
    (∀ current, artifact_state s !! a = Some current →
       current = "published" ∨ current = "archived" →
       artifact_state (final r) = artifact_state s) ∧
    (∀ a', a' ≠ a → artifact_state (final r) !! a' = artifact_state s !! a') ∧
    consent (final r) = consent s ∧ receipts (final r) = receipts s ∧
    receipt_anchor (final r) = receipt_anchor s ∧
    attribution (final r) = attribution s ∧
    known_users (final r) = known_users s ∧
    extractive_ingests (final r) = extractive_ingests s ∧
    published_count (final r) = published_count s.
Proof.
  intros now a d s r. unfold r. rewrite log_reuse_run. unfold final; simpl.
  split; [done|].
  destruct (artifact_state s !! a) as [current|] eqn:Ha.
  - case_bool_decide as Hc; simpl; split_and!; try done.
    + intros [= ->]. by apply insert_id.
    + intros ? [= <-] [->| ->]; exfalso; revert Hc; compute_done.
    + intros a' Hne. by rewrite lookup_insert_ne.
    + intros ? [= <-] [->| ->]; destruct Hc; compute_done.
  - by split_and!.
Qed.

End LifecycleClaims.

(** ** Active consent and expiry *)

Section ActiveConsent.
Context `{lib : PyLib}.

Lemma date_gt_before (a b : date) : date_gt a b = true ↔ date_before b a.
Proof.
  unfold date_gt, date_before.
  repeat case_bool_decide; split; intros; first [lia | done].
Qed.

Lemma split_T_first_prefix (d t : string) :
  occurs "T" d = false → split_T_first (d +:+ String "T" t) = d.
Proof.
  induction d as [|c d IH]; simpl; [done|].
  intros [Hc Hd]%orb_false_iff. rewrite Hc. by rewrite IH.
Qed.

Lemma split_T_first_whole (e : string) :
  occurs "T" e = false → split_T_first e = e.
Proof.
  induction e as [|c e IH]; simpl; [done|].
  intros [Hc He]%orb_false_iff. rewrite Hc. by rewrite IH.
Qed.

(** C3: [is_active_extractive] is false for a user without a consent state
    and for a stored [extractive] of false.  With [extractive] true it is
    true when no expiry is stored (or an empty one), true when the date
    portion of the expiry does not parse, and otherwise false exactly when the
    parsed date is strictly before today.  The date portion is the text
    before the first "T".  (The empty text does not parse in Python, which is
    what makes the empty expiry an instance of the malformed case.) *)
Theorem is_active_extractive_by_cases :
  ∀ today u s,
    (consent s !! u = None → is_active_extractive today u s = false) ∧
    (∀ c, consent s !! u = Some c → extractive c = false →
       is_active_extractive today u s = false) ∧
    (∀ c, consent s !! u = Some c → extractive c = true →
       expires c = None ∨ expires c = Some "" →
       is_active_extractive today u s = true) ∧
    (∀ c e, consent s !! u = Some c → extractive c = true →
       expires c = Some e → fromisoformat_date (split_T_first e) = None →
       is_active_extractive today u s = true) ∧
    (∀ c e d, consent s !! u = Some c → extractive c = true →
       expires c = Some e → fromisoformat_date "" = None →
       fromisoformat_date (split_T_first e) = Some d →
       (is_active_extractive today u s = false ↔ date_before d today) ∧
       (is_active_extractive today u s = true ↔ ¬ date_before d today)) ∧
    (∀ d t, occurs "T" d = false → split_T_first (d +:+ String "T" t) = d) ∧
    (∀ e, occurs "T" e = false → split_T_first e = e).
Proof.
  intros today u s. unfold is_active_extractive. split_and!.
  - by intros ->.
  - by intros c -> ->.
  - intros c -> -> [-> | ->]; reflexivity.
  - intros c e -> -> -> ->. simpl. by case_bool_decide.
  - intros c e d -> -> -> Hempty Hd. simpl.
    case_bool_decide as He.
    { subst e. simpl in Hd. congruence. }
    rewrite Hd. pose proof (date_gt_before today d) as Hgt.
    destruct (date_gt today d).
    + assert (Hb : date_before d today) by by apply Hgt.
      split; (split; [|done]); [done | discriminate].
    + assert (Hnb : ¬ date_before d today).
      { intros Hb. apply Hgt in Hb. discriminate. }
      split; (split; [|done]); [discriminate | done].
  - apply split_T_first_prefix.
  - apply split_T_first_whole.
Qed.

End ActiveConsent.

(** * The theorems at work on the concrete runs *)

Lemma demo_store_reachable (ops : list op) :
  reachable (lib := sample_pylib) (demo_store ops).
Proof. apply reachable_run, reachable_init. Defined.

(** C1 at a fresh engine: an extractive ingestion for a user who never
    consented is denied and leaves no artifact behind. *)
Lemma ingest_denied_witness :
  let r := ingest (lib := sample_pylib) demo_today "2026-11-03 09:00:01" "u1" "x"
             true None init in
  permission_denied r ∧
  artifact_state (final r) = artifact_state init ∧
  attribution (final r) = attribution init ∧
  extractive_ingests (final r) = extractive_ingests init.
Proof.
  intros r.
  destruct (@ingest_denied_iff_consent_or_scope_missing sample_pylib demo_today
              "2026-11-03 09:00:01" "u1" "x" true None init)
    as ((_ & _ & Hdenied & Hkept) & _).
  split.
  - apply Hdenied; reflexivity.
  - apply Hkept, Hdenied; reflexivity.
Defined.


(** C3 for a consent that expired on 2026-01-01, read on 2026-11-03. *)
Lemma expired_consent_witness :
  is_active_extractive (lib := sample_pylib) demo_today "u2"
    (demo_store expired_scenario) = false.
Proof.
  destruct (@is_active_extractive_by_cases sample_pylib demo_today "u2"
              (demo_store expired_scenario))
    as (_ & _ & _ & _ & Hexpiry & _).
  apply (Hexpiry (mkConsent true (Some "2026-01-01T00:00:00") [])
           "2026-01-01T00:00:00" (mkDate 2026 1 1));
    try reflexivity.
  unfold date_before, demo_today; simpl. lia.
Defined.

(** C4 on the documented scenario: an id that was never handed out is not
    found. *)
Lemma unknown_artifact_witness :
  transition_artifact_state "artifact_0" "used" (demo_store ingest_scenario) =
  (inl (ValueError (msg_not_found "artifact_0")), demo_store ingest_scenario).
Proof.
  apply (proj1 (@transition_follows_the_lifecycle_table sample_pylib)).
  vm_compute. intros Hin. discriminate Hin.
Defined.

(** C5 on the publication scenario: three admitted ingestions with three
    different ids, two artifacts published, one of them archived afterwards. *)
Lemma rim_6_witness :
  ∃ rep,
    audit (lib := sample_pylib) demo_today (demo_store publication_scenario) =
      (inr rep, demo_store publication_scenario) ∧
    RIM_6 rep = Qmake 6667 10000.
Proof.
  apply (proj2 (proj2 (proj2 (proj2 (proj2 (proj2
    (@published_count_is_ever_published sample_pylib)))))));
    vm_compute; reflexivity.
Defined.


(** C7 for a user with active scoped consent. *)
Lemma revoke_witness :
  let r := revoke_consent (lib := sample_pylib) "2026-11-03T09:30:00" "u1"
             (demo_store consent_scenario) in
  is_active_extractive (lib := sample_pylib) demo_today "u1" (final r) = false ∧
  consent (final r) !! "u1" = Some (mkConsent false None ["research"]).
Proof.
  intros r.
  destruct (@revoke_consent_deactivates_and_keeps_expiry_and_scope sample_pylib
              "2026-11-03T09:30:00" "u1" (demo_store consent_scenario)
              demo_today)
    as (_ & Hinactive & Hkept & _).
  split; [exact Hinactive|].
  apply (Hkept (mkConsent true None ["research"])). reflexivity.
Defined.

(** C8 on a freshly generated artifact. *)
Lemma log_reuse_witness :
  let a := demo_artifact "x" "2026-11-03 09:00:01" in
  let r := log_reuse "2026-11-03T09:00:03" a false (demo_store ingest_scenario) in
  artifact_state (final r) = <[a := "used"]> (artifact_state (demo_store ingest_scenario)).
Proof.
  intros a r.
  destruct (log_reuse_appends_and_marks_used
              "2026-11-03T09:00:03" a false (demo_store ingest_scenario))
    as (_ & _ & _ & Hused & _).
  apply (Hused "generated"); [reflexivity | by left].
Defined.

(** C9 at a fresh engine: the denied user is registered all the same. *)
Lemma denied_registers_witness :
  let r := ingest (lib := sample_pylib) demo_today "2026-11-03 09:00:01" "u1" "x"
             true None init in
  "u1" ∈ known_users (final r) ∧
  consent (final r) !! "u1" = Some default_consent ∧
  receipts (final r) !! "u1" = Some [].
Proof.
  intros r.
  destruct (proj1 (@denied_ingest_still_registers_the_user sample_pylib)
              demo_today "2026-11-03 09:00:01" "u1" "x" true None init eq_refl)
    as (_ & Hknown & Hconsent & Hhistory & _).
  split; [exact Hknown|]. split; [apply Hconsent | apply Hhistory]; reflexivity.
Defined.

(** C10 on the documented scenario. *)
Lemma users_agree_witness :
  known_users (demo_store reuse_scenario) = dom (consent (demo_store reuse_scenario)) ∧
  known_users (demo_store reuse_scenario) = dom (receipts (demo_store reuse_scenario)).
Proof.
  apply (proj1 (@known_users_are_the_consent_and_receipt_keys sample_pylib)).
  apply demo_store_reachable.
Defined.

(** * Two runs computed *)

(** The scenario of the engine's documentation: one consent, one extractive
    ingestion, one transition to used, one undisclosed reuse. *)
Example documented_scenario :
  let a := demo_artifact "x" "2026-11-03 09:00:01" in
  length (receipt_anchor (demo_store consent_scenario)) = 1%nat ∧
  returned (ingest (lib := sample_pylib) demo_today "2026-11-03 09:00:01" "u1" "x"
              true None (demo_store consent_scenario)) =
    Some (mkIngestResult "Processed" (Some a)) ∧
  extractive_ingests (demo_store ingest_scenario) = 1%nat ∧
  artifact_state (demo_store ingest_scenario) !! a = Some "generated" ∧
  artifact_state (demo_store reuse_scenario) !! a = Some "used" ∧
  length (reuse_log (demo_store reuse_scenario)) = 1%nat ∧
  RIM_3 <$> returned (audit (lib := sample_pylib) demo_today
                        (demo_store reuse_scenario)) = Some 0%Q.
Proof. vm_compute. by repeat split. Qed.

(** Why the count of distinct published artifacts needs ids that do not
    collide: here the first artifact's id is handed out again after it was
    published, the new artifact is published under it, and three publications
    are counted for two distinct ids. *)
Example reused_id_is_published_twice :
  let s := run (lib := colliding_pylib) collision_scenario init in
  fresh_ids (lib := colliding_pylib) collision_scenario init = false ∧
  extractive_ingests s = 3%nat ∧
  size (published_ids (lib := colliding_pylib) collision_scenario init) = 2%nat ∧
  published_count s = 3%nat.
Proof. vm_compute. by repeat split. Qed.

(** C5, as worded, fails when an artifact id is handed out twice.  In
    [reissue_scenario] three extractive ingestions are admitted, the two
    distinct artifacts x and y are the ones ever published, and x is archived
    at the end; but x was published twice, once before and once after its id
    was handed out again, so [published_count] is 3 and [audit] reports
    RIM-6 = 1, not 0.6667. *)
Lemma reissued_id_is_counted_twice :
  let lib := sample_pylib in
  let ops := reissue_scenario in
  let s := run ops init in
  let x := demo_artifact "x" "2026-11-03 09:00:01" in
  let y := demo_artifact "y" "2026-11-03 09:00:02" in
  count_calls admits_extractive ops init = 3%nat ∧
  x ∈ published_ids ops init ∧
  y ∈ published_ids ops init ∧
  x ≠ y ∧
  size (published_ids ops init) = 2%nat ∧
  artifact_state s !! x = Some "archived" ∧
  artifact_state s !! y = Some "published" ∧
  published_count s = 3%nat ∧
  (∃ rep, audit demo_today s = (inr rep, s) ∧
     RIM_6 rep = 1%Q ∧ ¬ (RIM_6 rep == Qmake 6667 10000)%Q) ∧
  ¬ (∀ ops' today,
       count_calls admits_extractive ops' init = 3%nat →
       size (published_ids ops' init) = 2%nat →
       ∃ rep, audit today (run ops' init) = (inr rep, run ops' init) ∧
              RIM_6 rep = Qmake 6667 10000).
Proof.
  intros lib ops s x y.
  destruct (audit_run demo_today s) as (rep & Hrun & _ & _ & _ & H6 & _).
  assert (Hone : RIM_6 rep = 1%Q) by (rewrite H6; vm_compute; reflexivity).
  split_and!.
  - vm_compute; reflexivity.
  - vm_compute; reflexivity.
  - vm_compute; reflexivity.
  - vm_compute. intros Hxy. discriminate Hxy.
  - vm_compute; reflexivity.
  - vm_compute; reflexivity.
  - vm_compute; reflexivity.
  - vm_compute; reflexivity.
  - exists rep. split; [exact Hrun|]. split; [exact Hone|].
    rewrite Hone. vm_compute. intros Hq. discriminate Hq.
  - intros Hall.
    destruct (Hall ops demo_today) as (rep' & Hrep & Hval);
      [vm_compute; reflexivity | vm_compute; reflexivity |].
    fold s in Hrep. rewrite Hrun in Hrep.
    pose proof (f_equal fst Hrep) as Hfst. cbn [fst] in Hfst.
    injection Hfst as <-. rewrite Hone in Hval. discriminate Hval.
Qed.

(** * Further properties of the engine *)

(** ** Registration, receipts and the anchor *)

Section LedgerExtras.
Context `{lib : PyLib}.

Lemma store_eq (s s' : store) :
  consent s = consent s' → receipts s = receipts s' →
  receipt_anchor s = receipt_anchor s' → attribution s = attribution s' →
  artifact_state s = artifact_state s' → reuse_log s = reuse_log s' →
  known_users s = known_users s' →
  extractive_ingests s = extractive_ingests s' →
  published_count s = published_count s' → s = s'.
Proof. destruct s, s'; simpl. by intros -> -> -> -> -> -> -> -> ->. Qed.

Lemma register_user_consent_map (u : string) (s : store) :
  consent (final (register_user u s)) =
  match consent s !! u with
  | Some _ => consent s
  | None => <[u := default_consent]> (consent s)
  end.
Proof.
  apply map_eq. intros k. rewrite register_user_consent.
  destruct (decide (u = k)) as [<-|Hne];
    destruct (consent s !! u) eqn:Hu; by simplify_map_eq.
Qed.

(** Registering a user who is known, with a consent state and a history,
    changes nothing. *)
Lemma register_user_known_noop (u : string) (s : store) :
  u ∈ known_users s → is_Some (consent s !! u) → is_Some (receipts s !! u) →
  final (register_user u s) = s.
Proof.
  intros Hk [c Hc] [h Hh].
  destruct (register_user_frame u s) as (Ha & Hat & Hst & Hrl & Hei & Hpc).
  apply store_eq; try done.
  - by rewrite register_user_consent_map, Hc.
  - by rewrite register_user_receipts_map, Hh.
  - rewrite register_user_known, (comm_L (∪)). apply subseteq_union_1_L.
    by apply singleton_subseteq_l.
Qed.

(** X1: [register_user] is idempotent: a second registration of the same
    user leaves the store as the first one left it; and for a user who is
    already known with a consent state and a history it changes nothing at
    all, so it never resets a consent or a history. *)
Theorem register_user_is_idempotent :
  ∀ u s,
    final (register_user u (final (register_user u s))) =
      final (register_user u s) ∧
    (u ∈ known_users s → is_Some (consent s !! u) → is_Some (receipts s !! u) →
       final (register_user u s) = s).
Proof.
  intros u s. split; [|apply register_user_known_noop].
  apply register_user_known_noop.
  - rewrite register_user_known. apply elem_of_union. right.
    by apply elem_of_singleton.
  - rewrite register_user_consent, decide_True by done. by eexists.
  - rewrite register_user_receipts, decide_True by done. by eexists.
Qed.


Lemma ingest_same_ledger (today : date) (now u p : string) (e : bool)
    (rs : option (list string)) (s : store) :
  same_ledger (final (register_user u s)) (final (ingest today now u p e rs s)).
Proof.
  rewrite ingest_run.
  assert (Hadm : same_ledger (final (register_user u s))
                   (final (admitted now u p e (final (register_user u s))))).
  { unfold admitted, final; simpl. destruct e; [|apply same_ledger_refl].
    pose proof (record_derivative_frame (make_artifact_id p now) u
                  (with_extractive_ingests S (final (register_user u s))))
      as (Hc & Hr & Ha & _ & _ & Hk & _).
    unfold final in *. by repeat split. }
  destruct (e || truthy (default [] rs)); [|apply Hadm].
  destruct (negb (is_active_extractive today u s)); [apply same_ledger_refl|].
  destruct (truthy (default [] rs) && _); [apply same_ledger_refl | apply Hadm].
Qed.

Lemma exec_same_ledger (o : op) (s : store) :
  op_user o = None → same_ledger s (exec o s).
Proof.
  destruct o as [u|now u e x sc|now u|u|u|today u|today now u p e rs|a u|a n
                |now a d|today]; simpl; intros Hnone; try discriminate;
    try apply same_ledger_refl.
  - pose proof (record_derivative_frame a u s) as (? & ? & ? & _ & _ & ? & _).
    by repeat split.
  - rewrite transition_artifact_state_run.
    destruct (artifact_state s !! a); [|apply same_ledger_refl].
    repeat case_bool_decide; by repeat split.
  - rewrite log_reuse_run. unfold final; simpl.
    destruct (artifact_state s !! a); [|by repeat split].
    case_bool_decide; by repeat split.
  - destruct (audit_run today s) as (rep & -> & _). apply same_ledger_refl.
Qed.

(** X3: a call touches the consent state and the receipt history of the
    user it names and of nobody else: every other user keeps consent state,
    history, latest receipt and active status. *)
Theorem calls_leave_other_users_alone :
  ∀ o s u' today,
    op_user o ≠ Some u' →
    consent (exec o s) !! u' = consent s !! u' ∧
    get_consent_history u' (exec o s) = get_consent_history u' s ∧
    get_latest_receipt u' (exec o s) = get_latest_receipt u' s ∧
    is_active_extractive today u' (exec o s) = is_active_extractive today u' s.
Proof.
  intros o s u' today Hne.
  assert (consent (exec o s) !! u' = consent s !! u' ∧
          receipts (exec o s) !! u' = receipts s !! u') as [Hc Hr].
  { assert (Hreg : ∀ u, u ≠ u' →
      consent (final (register_user u s)) !! u' = consent s !! u' ∧
      receipts (final (register_user u s)) !! u' = receipts s !! u').
    { intros u Hu. by rewrite register_user_consent, register_user_receipts,
        !decide_False. }
    assert (Hiss : ∀ now u c, u ≠ u' →
      consent (issued now u c (final (register_user u s))) !! u' = consent s !! u' ∧
      receipts (issued now u c (final (register_user u s))) !! u' = receipts s !! u').
    { intros now u c Hu. unfold issued; simpl.
      rewrite !lookup_insert_ne by done. by apply Hreg. }
    destruct (op_user o) as [u|] eqn:Hou.
    - assert (u ≠ u') as Hu by congruence.
      destruct o as [v|now v e x sc|now v|v|v|day v|day now v p e rs|a v|a n
                    |now a d|day]; simpl in Hou; try discriminate;
        injection Hou as ->; simpl.
      + by apply Hreg.
      + rewrite set_consent_run. by apply Hiss.
      + rewrite revoke_consent_run. by apply Hiss.
      + destruct (ingest_same_ledger day now u p e rs s) as (-> & -> & _).
        by apply Hreg.
    - by destruct (exec_same_ledger o s Hou) as (-> & -> & _). }
  split; [done|]. unfold get_consent_history, get_latest_receipt,
    is_active_extractive. by rewrite Hc, Hr.
Qed.

Lemma issued_receipts (now u : string) (c : ConsentState) (s1 : store) :
  receipts (issued now u c s1) =
  <[u := get_consent_history u s1 ++ [mkReceipt now (receipt_digest u c) c]]>
    (receipts s1).
Proof. reflexivity. Qed.

Lemma issued_anchor (now u : string) (c : ConsentState) (s1 : store) :
  receipt_anchor (issued now u c s1) =
  receipt_anchor s1 ++ [anchor_of (mkReceipt now (receipt_digest u c) c)].
Proof. reflexivity. Qed.

Lemma anchored_exec (s : store) (o : op) : anchored s → anchored (exec o s).
Proof.
  apply exec_preserves; clear s o.
  - intros s s' (_ & Hr & Ha & _) Hs. unfold anchored in *. by rewrite Hr, Ha.
  - intros s u [Hin Hout].
    destruct (register_user_frame u s) as (Ha & _).
    split.
    + intros a. rewrite Ha. intros (v & h & r & Hv & Hr & ->)%Hin.
      exists v, h, r. split; [|done]. rewrite register_user_receipts.
      destruct (decide (u = v)) as [->|]; [|done]. by rewrite Hv.
    + intros v h r. rewrite Ha, register_user_receipts.
      destruct (decide (u = v)) as [->|]; [|by apply Hout].
      intros [= <-]. destruct (receipts s !! v) eqn:Hv; simpl.
      * by apply (Hout v).
      * by intros ?%elem_of_nil.
  - intros s1 now u c [Hin Hout] _ Hu. split.
    + intros a. rewrite issued_anchor.
      intros [Ha| ->%list_elem_of_singleton]%elem_of_app.
      all: setoid_rewrite issued_receipts.
      * destruct (Hin a Ha) as (v & h & r & Hv & Hr & ->).
        destruct (decide (u = v)) as [->|Hne].
        -- eexists v, _, r. rewrite lookup_insert_eq. split; [done|].
           split; [|done]. apply elem_of_app. left.
           unfold get_consent_history. by rewrite Hv.
        -- exists v, h, r. by rewrite lookup_insert_ne.
      * eexists u, _, _. rewrite lookup_insert_eq. split; [done|].
        split; [|done]. apply elem_of_app. right. by apply list_elem_of_singleton.
    + intros v h r. rewrite issued_receipts, issued_anchor.
      destruct (decide (u = v)) as [->|Hne].
      * rewrite lookup_insert_eq. intros [= <-].
        intros [Hr| ->%list_elem_of_singleton]%elem_of_app; apply elem_of_app.
        -- left. by apply (Hout v _ r Hu).
        -- right. by apply list_elem_of_singleton.
      * rewrite lookup_insert_ne by done. intros Hv Hr.
        apply elem_of_app. left. by apply (Hout v h).
Qed.

(** X4: in every reachable store the anchor and the receipt histories hold
    the same receipts: each anchor entry is the receipt and timestamp of a
    record in some user's history, and each record of each history has its
    entry in the anchor. *)
Theorem anchor_holds_exactly_the_issued_receipts :
  ∀ s, reachable s →
    (∀ a, a ∈ receipt_anchor s →
       ∃ u r, r ∈ get_consent_history u s ∧
         anchor_receipt a = receipt r ∧ anchor_timestamp a = timestamp r) ∧
    (∀ u r, r ∈ get_consent_history u s →
       mkAnchor (receipt r) (timestamp r) ∈ receipt_anchor s).
Proof.
  intros s Hs.
  assert (anchored s) as [Hin Hout].
  { revert s Hs. apply reachable_preserves; [|apply anchored_exec].
    split.
    - by intros a ?%elem_of_nil.
    - intros u h r. unfold init; simpl. by rewrite lookup_empty. }
  split.
  - intros a (u & h & r & Hu & Hr & ->)%Hin. exists u, r.
    unfold get_consent_history. by rewrite Hu.
  - intros u r. unfold get_consent_history.
    destruct (receipts s !! u) as [h|] eqn:Hu; simpl.
    + by apply (Hout u h).
    + by intros ?%elem_of_nil.
Qed.

(** The reuse log after one call. *)
Lemma exec_reuse_log (o : op) (s : store) :
  reuse_log (exec o s) = reuse_log s ++ reuse_entries [o].
Proof.
  destruct o as [u|now u e x sc|now u|u|u|today u|today now u p e rs|a u|a n
                |now a d|today]; simpl; rewrite ?app_nil_r; try reflexivity.
  - apply register_user_frame.
  - rewrite set_consent_run. apply register_user_frame.
  - rewrite revoke_consent_run. apply register_user_frame.
  - rewrite ingest_run.
    destruct (register_user_frame u s) as (_ & _ & _ & Hrl & _).
    assert (Hadm : reuse_log (final (admitted now u p e (final (register_user u s))))
                   = reuse_log s).
    { rewrite <-Hrl. unfold admitted, final; simpl. destruct e; [|done].
      apply (record_derivative_frame (make_artifact_id p now) u
               (with_extractive_ingests S (register_user u s).2)). }
    destruct (e || truthy (default [] rs)); [|apply Hadm].
    destruct (negb (is_active_extractive today u s)); [apply Hrl|].
    destruct (truthy (default [] rs) && _); [apply Hrl | apply Hadm].
  - apply record_derivative_frame.
  - rewrite transition_artifact_state_run.
    destruct (artifact_state s !! a); [|reflexivity].
    by repeat case_bool_decide.
  - rewrite log_reuse_run. unfold final; simpl.
    destruct (artifact_state s !! a); [|reflexivity]. by case_bool_decide.
  - by destruct (audit_run today s) as (rep & -> & _).
Qed.

Lemma reuse_entries_app (ops ops' : list op) :
  reuse_entries (ops ++ ops') = reuse_entries ops ++ reuse_entries ops'.
Proof.
  induction ops as [|o ops IH]; [done|].
  destruct o; simpl; by rewrite IH.
Qed.

(** X5: the logs are append-only and nothing is ever forgotten.  After any
    run the reuse log is the old log followed by one entry per [log_reuse]
    call, in call order; the anchor is the old anchor followed by new
    entries; and no user, consent state, receipt history or artifact state
    disappears. *)
Theorem logs_are_append_only :
  ∀ ops s,
    reuse_log (run ops s) = reuse_log s ++ reuse_entries ops ∧
    (∃ l, receipt_anchor (run ops s) = receipt_anchor s ++ l) ∧
    known_users s ⊆ known_users (run ops s) ∧
    dom (consent s) ⊆ dom (consent (run ops s)) ∧
    dom (receipts s) ⊆ dom (receipts (run ops s)) ∧
    dom (artifact_state s) ⊆ dom (artifact_state (run ops s)).
Proof.
  intros ops. induction ops as [|o ops IH]; intros s.
  { simpl. rewrite app_nil_r. split; [done|]. split; [by exists []; rewrite app_nil_r|].
    done. }
  destruct (IH (exec o s)) as (Hlog & [l Hl] & Hk & Hc & Hr & Hst).
  change (run (o :: ops) s) with (run ops (exec o s)).
  assert (Hstep :
    (∃ l0, receipt_anchor (exec o s) = receipt_anchor s ++ l0) ∧
    known_users s ⊆ known_users (exec o s) ∧
    dom (consent s) ⊆ dom (consent (exec o s)) ∧
    dom (receipts s) ⊆ dom (receipts (exec o s))).
  { assert (Hreg : ∀ u,
      receipt_anchor (final (register_user u s)) = receipt_anchor s ∧
      known_users s ⊆ known_users (final (register_user u s)) ∧
      dom (consent s) ⊆ dom (consent (final (register_user u s))) ∧
      dom (receipts s) ⊆ dom (receipts (final (register_user u s)))).
    { intros u. split; [apply register_user_frame|].
      rewrite register_user_known, register_user_dom_consent,
        register_user_dom_receipts.
      split_and!; apply union_subseteq_l. }
    destruct (exec_ledger_effect o s)
      as [(Hc' & Hr' & Ha' & Hk')|[(u & Hc' & Hr' & Ha' & Hk')|(now & u & c & ->)]].
    - rewrite Hc', Hr', Ha', Hk'. split; [by exists []; rewrite app_nil_r|]. done.
    - rewrite Hc', Hr', Ha', Hk'. destruct (Hreg u) as (-> & ? & ? & ?).
      split; [by exists []; rewrite app_nil_r|]. done.
    - destruct (Hreg u) as (Ha' & Hk' & Hc' & Hr').
      rewrite issued_anchor, issued_receipts, Ha'. unfold issued; simpl.
      rewrite !dom_insert_L.
      split; [eauto|]. split; [done|].
      split; (etrans; [|apply union_subseteq_r]); done. }
  destruct Hstep as ([l0 Hl0] & Hk0 & Hc0 & Hr0).
  split_and!.
  - rewrite Hlog, exec_reuse_log, <-app_assoc. f_equal.
    by rewrite <-reuse_entries_app.
  - exists (l0 ++ l). by rewrite Hl, Hl0, app_assoc.
  - by etrans.
  - by etrans.
  - by etrans.
  - etrans; [|exact Hst]. rewrite exec_artifact_state.
    destruct o as [u|now u e x sc|now u|u|u|today u|today now u p e rs|a u|a n
                  |now a d|today]; try done.
    + destruct (admits_extractive _ s); [|done].
      rewrite dom_insert_L. apply union_subseteq_r.
    + destruct (raised _); [done|]. rewrite dom_insert_L. apply union_subseteq_r.
    + destruct (artifact_state s !! a); [|done].
      case_bool_decide; [|done]. rewrite dom_insert_L. apply union_subseteq_r.
Qed.

End LedgerExtras.

(** ** Ingestion and attribution *)

Section GateExtras.
Context `{lib : PyLib}.

(** [record_derivative] in closed form. *)
Lemma record_derivative_attribution (a u : string) (s : store) :
  attribution (final (record_derivative a u s)) =
  <[a := if bool_decide (u ∈ origins a s) then origins a s
         else origins a s ++ [u]]> (attribution s).
Proof.
  unfold record_derivative, subscript, origins. run_M.
  case_bool_decide as Ha; simpl.
  - destruct Ha as [l Hl]. rewrite Hl. simpl.
    case_bool_decide; simpl; [by rewrite insert_id|done].
  - apply eq_None_not_Some in Ha. rewrite Ha, lookup_insert_eq. simpl.
    rewrite ?bool_decide_eq_false_2 by apply not_elem_of_nil. simpl.
    by rewrite insert_insert_eq.
Qed.

Lemma record_derivative_store (a u : string) (s : store) :
  final (record_derivative a u s) =
  with_attribution
    <[a := if bool_decide (u ∈ origins a s) then origins a s
           else origins a s ++ [u]]> s.
Proof.
  destruct (record_derivative_frame a u s) as (? & ? & ? & ? & ? & ? & ? & ?).
  apply store_eq; try done. apply record_derivative_attribution.
Qed.

(** X6: recording a derivative is idempotent and keeps the order of first
    contribution: the origin users already recorded stay where they are, a new
    user goes to the end, a user already recorded changes nothing, and
    recording the same user again leaves the store as it is. *)
Theorem record_derivative_is_idempotent_and_ordered :
  ∀ a u s,
    let s' := final (record_derivative a u s) in
    (record_derivative a u s).1 = inr () ∧
    u ∈ origins a s' ∧
    (u ∈ origins a s → s' = s) ∧
    (u ∉ origins a s → origins a s' = origins a s ++ [u]) ∧
    (∀ a', a' ≠ a → origins a' s' = origins a' s) ∧
    final (record_derivative a u s') = s'.
Proof.
  intros a u s s'.
  assert (Hs' : s' = with_attribution
            <[a := if bool_decide (u ∈ origins a s) then origins a s
                   else origins a s ++ [u]]> s) by apply record_derivative_store.
  assert (Ho : origins a s' =
            if bool_decide (u ∈ origins a s) then origins a s
            else origins a s ++ [u]).
  { rewrite Hs'. unfold origins at 1. simpl. by rewrite lookup_insert_eq. }
  assert (Hin : u ∈ origins a s').
  { rewrite Ho. case_bool_decide; [done|]. apply elem_of_app. right.
    by apply list_elem_of_singleton. }
  split_and!.
  - by rewrite record_derivative_run.
  - done.
  - intros Hu. rewrite Hs', bool_decide_eq_true_2 by done.
    apply store_eq; try done. simpl. apply insert_id.
    unfold origins in *. destruct (attribution s !! a); [done|].
    by apply elem_of_nil in Hu.
  - intros Hu. by rewrite Ho, bool_decide_eq_false_2.
  - intros a' Hne. rewrite Hs'. unfold origins. simpl.
    by rewrite lookup_insert_ne.
  - rewrite record_derivative_store, bool_decide_eq_true_2 by done.
    apply store_eq; try done. simpl. apply insert_id.
    unfold origins in *. destruct (attribution s' !! a); [done|].
    by apply elem_of_nil in Hin.
Qed.

Lemma ingest_returned (today : date) (now u p : string) (e : bool)
    (rs : option (list string)) (s : store) :
  raised (ingest today now u p e rs s) = false →
  ingest today now u p e rs s = admitted now u p e (final (register_user u s)).
Proof.
  rewrite ingest_run.
  destruct (e || truthy (default [] rs)); [|done].
  destruct (negb (is_active_extractive today u s)); [done|].
  by destruct (truthy (default [] rs) && _).
Qed.

(** X7: an ingestion that is not extractive never creates anything: whether
    it is admitted or denied, the store it leaves is the store after
    [register_user], with no artifact state, attribution or counter changed,
    and when it is admitted its result carries no artifact id, required
    scopes or not. *)
Theorem non_extractive_ingest_only_registers :
  ∀ today now u p rs s,
    let r := ingest today now u p false rs s in
    final r = final (register_user u s) ∧
    artifact_state (final r) = artifact_state s ∧
    attribution (final r) = attribution s ∧
    extractive_ingests (final r) = extractive_ingests s ∧
    (raised r = false → returned r = Some (mkIngestResult "Processed" None)).
Proof.
  intros today now u p rs s r.
  destruct (register_user_frame u s) as (_ & Hat & Hst & _ & Hei & _).
  assert (Hf : final r = final (register_user u s)).
  { unfold r. rewrite ingest_run.
    destruct (false || truthy (default [] rs)); [|done].
    destruct (negb (is_active_extractive today u s)); [done|].
    by destruct (truthy (default [] rs) && _). }
  rewrite Hf. split_and!; try done.
  intros Hr. unfold r in *. by rewrite (ingest_returned _ _ _ _ _ _ _ Hr).
Qed.

(** X8: an extractive ingestion that is admitted hands out the id built from
    the payload and the instant, puts that artifact in state generated with
    the user among its origins, adds one to [extractive_ingests], and leaves
    the state and origins of every other artifact, the publication count and
    the reuse log as they were. *)
Theorem admitted_extractive_ingest_creates_one_artifact :
  ∀ today now u p rs s,
    raised (ingest today now u p true rs s) = false →
    let r := ingest today now u p true rs s in
    let a := make_artifact_id p now in
    returned r = Some (mkIngestResult "Processed" (Some a)) ∧
    artifact_state (final r) !! a = Some "generated" ∧
    u ∈ origins a (final r) ∧
    extractive_ingests (final r) = S (extractive_ingests s) ∧
    (∀ a', a' ≠ a →
       artifact_state (final r) !! a' = artifact_state s !! a' ∧
       origins a' (final r) = origins a' s) ∧
    published_count (final r) = published_count s ∧
    reuse_log (final r) = reuse_log s.
Proof.
  intros today now u p rs s Hr r a. unfold r.
  rewrite (ingest_returned _ _ _ _ _ _ _ Hr).
  destruct (register_user_frame u s) as (_ & Hat & Hst & Hrl & Hei & Hpc).
  unfold admitted, final, returned. simpl. fold a.
  change ((record_derivative a u
             (with_extractive_ingests S (register_user u s).2)).2)
    with (final (record_derivative a u
             (with_extractive_ingests S (final (register_user u s))))).
  rewrite record_derivative_store. simpl.
  unfold origins. simpl. unfold final in *. rewrite Hat, Hst, Hrl, Hei, Hpc.
  split_and!; try done.
  - apply lookup_insert_eq.
  - rewrite lookup_insert_eq. simpl.
    case_bool_decide as Hu; [done|]. apply elem_of_app. right.
    by apply list_elem_of_singleton.
  - intros a' Hne. by rewrite !lookup_insert_ne.
Qed.

(** X9: consent takes effect at once.  After [set_consent] with
    [extractive=True] and no expiry, an ingestion for that user is admitted at
    every date whenever its required scopes are all in the granted scope;
    after [set_consent] with [extractive=False], and after [revoke_consent],
    every extractive or scoped ingestion for that user is denied. *)
Theorem consent_changes_govern_the_next_ingest :
  (∀ now u sc s today now' p e rs,
     (∀ x, x ∈ default [] rs → x ∈ default [] sc) →
     raised (ingest today now' u p e rs
               (final (set_consent now u true None sc s))) = false) ∧
  (∀ now u x sc s today now' p e rs,
     e = true ∨ default [] rs ≠ [] →
     permission_denied (ingest today now' u p e rs
                          (final (set_consent now u false x sc s)))) ∧
  (∀ now u s today now' p e rs,
     e = true ∨ default [] rs ≠ [] →
     permission_denied (ingest today now' u p e rs
                          (final (revoke_consent now u s)))).
Proof.
  assert (Hdenied : ∀ today now' u p e rs s' c,
    consent s' !! u = Some c → extractive c = false →
    e = true ∨ default [] rs ≠ [] →
    permission_denied (ingest today now' u p e rs s')).
  { intros today now' u p e rs s' c Hc He Hrun. rewrite ingest_run.
    assert (is_active_extractive today u s' = false) as ->.
    { unfold is_active_extractive. by rewrite Hc, He. }
    assert (e || truthy (default [] rs) = true) as ->.
    { destruct Hrun as [->|Hne]; [done|]. apply orb_true_iff. right.
      by apply truthy_nonempty. }
    by eexists. }
  split_and!.
  - intros now u sc s today now' p e rs Hsub.
    rewrite set_consent_run. unfold final at 1. simpl snd.
    destruct (issued_appends now u (mkConsent true None (default [] sc)) s)
      as (Hc & _).
    rewrite ingest_run.
    assert (is_active_extractive today u
              (issued now u (mkConsent true None (default [] sc))
                 (final (register_user u s))) = true) as ->.
    { unfold is_active_extractive. by rewrite Hc. }
    assert (bool_decide (list_to_set (default [] rs) ⊆
              current_scope u (issued now u (mkConsent true None (default [] sc))
                                 (final (register_user u s)))) = true) as ->.
    { apply bool_decide_eq_true. unfold current_scope. rewrite Hc. simpl.
      intros y Hy%elem_of_list_to_set. apply elem_of_list_to_set. by apply Hsub. }
    simpl. rewrite andb_false_r.
    by destruct (e || truthy (default [] rs)).
  - intros now u x sc s today now' p e rs Hrun.
    rewrite set_consent_run. unfold final at 1. simpl snd.
    destruct (issued_appends now u (mkConsent false x (default [] sc)) s)
      as (Hc & _).
    by apply (Hdenied _ _ _ _ _ _ _ _ Hc).
  - intros now u s today now' p e rs Hrun.
    rewrite revoke_consent_run. unfold final at 1. simpl snd.
    set (old := default default_consent (consent s !! u)).
    destruct (issued_appends now u (mkConsent false (expires old) (scope old)) s)
      as (Hc & _).
    by apply (Hdenied _ _ _ _ _ _ _ _ Hc).
Qed.

(** What one call does to the attribution records. *)
Lemma exec_attribution (o : op) (s : store) :
  attribution (exec o s) =
  match o with
  | Ingest today now u p e rs =>
      let a := make_artifact_id p now in
      if admits_extractive o s
      then <[a := if bool_decide (u ∈ origins a s) then origins a s
                  else origins a s ++ [u]]> (attribution s)
      else attribution s
  | RecordDerivative a u =>
      <[a := if bool_decide (u ∈ origins a s) then origins a s
             else origins a s ++ [u]]> (attribution s)
  | _ => attribution s
  end.
Proof.
  destruct o as [u|now u e x sc|now u|u|u|today u|today now u p e rs|a u|a n
                |now a d|today]; simpl; try reflexivity.
  - apply register_user_frame.
  - rewrite set_consent_run. apply register_user_frame.
  - rewrite revoke_consent_run. apply register_user_frame.
  - rewrite ingest_run.
    destruct (register_user_frame u s) as (_ & Hat & _).
    assert (Hadm :
      attribution (final (admitted now u p e (final (register_user u s)))) =
      if e && negb (raised (admitted now u p e (final (register_user u s))))
      then <[make_artifact_id p now :=
               if bool_decide (u ∈ origins (make_artifact_id p now) s)
               then origins (make_artifact_id p now) s
               else origins (make_artifact_id p now) s ++ [u]]> (attribution s)
      else attribution s).
    { rewrite admitted_returns. unfold admitted, final. simpl.
      destruct e; simpl; [|exact Hat].
      change ((record_derivative (make_artifact_id p now) u
                 (with_extractive_ingests S (register_user u s).2)).2)
        with (final (record_derivative (make_artifact_id p now) u
                 (with_extractive_ingests S (final (register_user u s))))).
      rewrite record_derivative_attribution. unfold origins. simpl.
      unfold final in *. by rewrite Hat. }
    destruct (e || truthy (default [] rs)); [|apply Hadm].
    destruct (negb (is_active_extractive today u s)).
    { unfold raised, final; simpl. by rewrite andb_false_r. }
    destruct (truthy (default [] rs) && _); [|apply Hadm].
    unfold raised, final; simpl. by rewrite andb_false_r.
  - apply record_derivative_attribution.
  - rewrite transition_artifact_state_run.
    destruct (artifact_state s !! a) as [current|]; [|reflexivity].
    by repeat case_bool_decide.
  - rewrite log_reuse_run. unfold final; simpl.
    destruct (artifact_state s !! a) as [current|]; [|reflexivity].
    by case_bool_decide.
  - by destruct (audit_run today s) as (rep & -> & _).
Qed.

Lemma origins_updated_sound (m : gmap string (list string)) (a u : string) :
  (∀ b l, m !! b = Some l → l ≠ [] ∧ NoDup l) →
  ∀ b l,
    <[a := if bool_decide (u ∈ default [] (m !! a)) then default [] (m !! a)
           else default [] (m !! a) ++ [u]]> m !! b = Some l →
    l ≠ [] ∧ NoDup l.
Proof.
  intros Hm b l. destruct (decide (a = b)) as [<-|Hne].
  - rewrite lookup_insert_eq. intros [= <-].
    assert (NoDup (default [] (m !! a))) as Hnd.
    { destruct (m !! a) as [l0|] eqn:Ha; simpl; [by apply (Hm a)|constructor]. }
    case_bool_decide as Hu.
    + split; [|done]. intros Hnil. rewrite Hnil in Hu. by apply elem_of_nil in Hu.
    + split; [by destruct (default [] (m !! a))|].
      apply NoDup_app. split; [done|]. split; [|apply NoDup_singleton].
      intros y Hy ->%list_elem_of_singleton. done.
  - rewrite lookup_insert_ne by done. apply Hm.
Qed.

Lemma attribution_sound_exec (s : store) (o : op) :
  attribution_sound s → attribution_sound (exec o s).
Proof.
  intros [Hl Hdom]. split.
  - rewrite exec_attribution.
    destruct o as [u|now u e x sc|now u|u|u|today u|today now u p e rs|a u|a n
                  |now a d|today]; try exact Hl.
    + cbv zeta.
      destruct (admits_extractive (Ingest today now u p e rs) s); [|exact Hl].
      by apply origins_updated_sound.
    + by apply origins_updated_sound.
  - rewrite exec_attribution, exec_artifact_state.
    destruct o as [u|now u e x sc|now u|u|u|today u|today now u p e rs|a u|a n
                  |now a d|today]; try exact Hdom.
    + cbv zeta.
      destruct (admits_extractive (Ingest today now u p e rs) s); [|exact Hdom].
      rewrite !dom_insert_L. by apply union_mono_l.
    + rewrite dom_insert_L. etrans; [exact Hdom|apply union_subseteq_r].
    + rewrite transition_artifact_state_run.
      destruct (artifact_state s !! a) as [current|] eqn:Ha; [|exact Hdom].
      case_bool_decide; [|exact Hdom]. unfold raised; simpl.
      rewrite dom_insert_lookup_L by eauto. exact Hdom.
    + destruct (artifact_state s !! a) as [current|] eqn:Ha; [|exact Hdom].
      case_bool_decide; [|exact Hdom].
      rewrite dom_insert_lookup_L by eauto. exact Hdom.
Qed.

(** X10: in every reachable store each attribution record names at least
    one origin user and no user twice, and every artifact that has a lifecycle
    state has an attribution record. *)
Theorem attribution_records_are_sound :
  ∀ s, reachable s →
    (∀ a l, attribution s !! a = Some l → l ≠ [] ∧ NoDup l) ∧
    (∀ a, is_Some (artifact_state s !! a) → origins a s ≠ [] ∧ NoDup (origins a s)).
Proof.
  intros s Hs.
  assert (attribution_sound s) as [Hl Hdom].
  { revert s Hs. apply reachable_preserves; [|intros; by apply attribution_sound_exec].
    split.
    - intros a l. unfold init; simpl. by rewrite lookup_empty.
    - done. }
  split; [exact Hl|].
  intros a Ha%elem_of_dom. apply Hdom, elem_of_dom in Ha as [l Hal].
  unfold origins. rewrite Hal. by apply (Hl a).
Qed.

End GateExtras.

(** ** The lifecycle order *)

Section LifecycleExtras.
Context `{lib : PyLib}.

(** Every entry of the transition table leads from one of the four states to
    a later one. *)
Lemma table_advances (current n : string) :
  n ∈ default [] (valid_transitions !! current) →
  current ∈ lifecycle_states ∧ n ∈ lifecycle_states ∧
  (state_rank current < state_rank n)%nat.
Proof.
  intros Hin.
  destruct (decide (current ∈ lifecycle_states)) as [Hc|Hc].
  - split; [done|]. unfold lifecycle_states in Hc.
    repeat (apply elem_of_cons in Hc as [->|Hc]);
      [| | | |by apply elem_of_nil in Hc].
    + change (n ∈ ["used"; "archived"]) in Hin.
      repeat (apply elem_of_cons in Hin as [->|Hin]);
        [| |by apply elem_of_nil in Hin]; split; [compute_done|compute; lia|
                                                  compute_done|compute; lia].
    + change (n ∈ ["published"; "archived"]) in Hin.
      repeat (apply elem_of_cons in Hin as [->|Hin]);
        [| |by apply elem_of_nil in Hin]; split; [compute_done|compute; lia|
                                                  compute_done|compute; lia].
    + change (n ∈ ["archived"]) in Hin.
      apply list_elem_of_singleton in Hin as ->.
      split; [compute_done|compute; lia].
    + change (n ∈ @nil string) in Hin. by apply elem_of_nil in Hin.
  - rewrite valid_transitions_other in Hin by done. by apply elem_of_nil in Hin.
Qed.

(** X11: the lifecycle only moves forward.  A transition that succeeds takes
    the artifact from one of the four states to one that comes strictly later
    in the order generated, used, published, archived; [log_reuse] never
    moves an artifact backwards. *)
Theorem lifecycle_only_moves_forward :
  (∀ a n s current,
     artifact_state s !! a = Some current →
     raised (transition_artifact_state a n s) = false →
     current ∈ lifecycle_states ∧ n ∈ lifecycle_states ∧
     (state_rank current < state_rank n)%nat ∧
     artifact_state (final (transition_artifact_state a n s)) !! a = Some n) ∧
  (∀ now a d s current,
     artifact_state s !! a = Some current →
     ∃ next,
       artifact_state (final (log_reuse now a d s)) !! a = Some next ∧
       (state_rank current ≤ state_rank next)%nat).
Proof.
  split.
  - intros a n s current Ha. rewrite transition_artifact_state_run, Ha.
    case_bool_decide as Hin; [|done]. intros _.
    destruct (table_advances current n Hin) as (? & ? & ?).
    split_and!; try done. unfold final; simpl. apply lookup_insert_eq.
  - intros now a d s current Ha. rewrite log_reuse_run, Ha.
    unfold final; simpl. case_bool_decide as Hin.
    + exists "used". simpl. rewrite lookup_insert_eq. split; [done|].
      repeat (apply elem_of_cons in Hin as [->|Hin]);
        [compute; lia|compute; lia|by apply elem_of_nil in Hin].
    + exists current. by split.
Qed.

Lemma admits_creates (today : date) (now u p : string) (e : bool)
    (rs : option (list string)) (s : store) :
  admits_extractive (Ingest today now u p e rs) s = true →
  created_by (Ingest today now u p e rs) s = {[make_artifact_id p now]}.
Proof.
  unfold admits_extractive, created_by.
  intros [-> Hr%negb_true_iff]%andb_true_iff.
  by rewrite (ingest_returned _ _ _ _ _ _ _ Hr).
Qed.

(** An archived artifact stays archived over a call that does not hand its
    id out again. *)
Lemma exec_archived (o : op) (s : store) (a : string) :
  created_by o s ## dom (artifact_state s) →
  artifact_state s !! a = Some "archived" →
  artifact_state (exec o s) !! a = Some "archived".
Proof.
  intros Hfresh Ha. rewrite exec_artifact_state.
  destruct o as [u|now u e x sc|now u|u|u|today u|today now u p e rs|b u|b n
                |now b d|today]; try done.
  - destruct (admits_extractive _ s) eqn:Hadm; [|done].
    rewrite (admits_creates _ _ _ _ _ _ _ Hadm) in Hfresh.
    rewrite lookup_insert_ne; [done|]. intros <-.
    apply (Hfresh (make_artifact_id p now)); [by apply elem_of_singleton|].
    apply elem_of_dom. eauto.
  - destruct (raised _) eqn:Hr; [done|].
    destruct (decide (b = a)) as [->|Hne]; [|by rewrite lookup_insert_ne].
    rewrite transition_artifact_state_run, Ha in Hr.
    case_bool_decide as Hin; [|done].
    change (n ∈ @nil string) in Hin. by apply elem_of_nil in Hin.
  - destruct (artifact_state s !! b) as [current|] eqn:Hb; [|done].
    case_bool_decide as Hin; [|done].
    destruct (decide (b = a)) as [->|Hne]; [|by rewrite lookup_insert_ne].
    rewrite Ha in Hb. injection Hb as <-. exfalso. revert Hin. compute_done.
Qed.

(** X12: archiving is final and publication is not undone.  Along a run in
    which no ingestion hands out an id that is already in use, an archived
    artifact stays archived and a published artifact stays published or
    becomes archived. *)
Theorem archived_and_published_are_kept :
  ∀ ops s a,
    fresh_ids ops s = true →
    (artifact_state s !! a = Some "archived" →
     artifact_state (run ops s) !! a = Some "archived") ∧
    (artifact_state s !! a = Some "published" →
     artifact_state (run ops s) !! a = Some "published" ∨
     artifact_state (run ops s) !! a = Some "archived").
Proof.
  intros ops. induction ops as [|o ops IH]; intros s a Hfresh.
  { split; [done|]. by left. }
  simpl in Hfresh. apply andb_true_iff in Hfresh as [Hnow Hrest].
  apply bool_decide_eq_true in Hnow.
  change (run (o :: ops) s) with (run ops (exec o s)).
  destruct (IH (exec o s) a Hrest) as [IHa IHp].
  split.
  - intros Ha. by apply IHa, exec_archived.
  - intros Ha.
    assert (settled s {[a]}) as Hset.
    { intros b ->%elem_of_singleton. by left. }
    destruct (exec_settled o s {[a]} Hset Hnow) as (Hset' & _).
    destruct (Hset' a) as [Hp|Hr].
    + apply elem_of_union. left. by apply elem_of_singleton.
    + by apply IHp.
    + right. by apply IHa.
Qed.

End LifecycleExtras.

(** ** The audit report *)

Section AuditExtras.
Context `{lib : PyLib}.

(** [audit] returns [audit_report] and leaves the store as it is. *)
Lemma audit_report_run (today : date) (s : store) :
  audit today s = (inr (audit_report today s), s).
Proof.
  unfold audit.
  rewrite (bind_returns _ _ s s (elements (known_users s))) by reflexivity.
  rewrite (bind_returns _ _ s s (count_active today s))
    by (by apply count_where_run).
  run_M.
  rewrite (count_where_run _
             (active_with today (λ c, bool_decide (is_Some (expires c))) s))
    by (intros; apply active_and_run).
  rewrite (count_where_run _ (active_with today (λ c, truthy (scope c)) s))
    by (intros; apply active_and_run).
  reflexivity.
Qed.

Lemma count_of_insert (k x : string) (v : nat) (counts : gmap string nat) :
  count_of k (<[x := v]> counts) = if decide (x = k) then v else count_of k counts.
Proof.
  unfold count_of. case_decide as Hx.
  - subst. by rewrite lookup_insert_eq.
  - by rewrite lookup_insert_ne.
Qed.

(** The breakdown counts every artifact whose state is one of the four. *)
Lemma count_states_total (m : gmap string string) :
  (∀ a st, m !! a = Some st → st ∈ lifecycle_states) →
  total_count (count_states m) = size m.
Proof.
  unfold count_states.
  pose (f := λ (_ state : string) (counts : gmap string nat),
          match counts !! state with
          | Some n => <[state := S n]> counts
          | None => counts
          end).
  enough (Hboth :
    (∀ a st, m !! a = Some st → st ∈ lifecycle_states) →
    (∀ k, k ∈ lifecycle_states → is_Some (map_fold f state_counts_init m !! k)) ∧
    total_count (map_fold f state_counts_init m) = size m)
    by (intros Hm; by apply Hboth).
  apply (map_fold_weak_ind
    (λ r m, (∀ a st, m !! a = Some st → st ∈ lifecycle_states) →
            (∀ k, k ∈ lifecycle_states → is_Some (r !! k)) ∧
            total_count r = size m)); clear m.
  - intros _. split; [|by rewrite map_size_empty].
    intros k Hk. unfold lifecycle_states in Hk.
    repeat (apply elem_of_cons in Hk as [->|Hk]); try (by eexists).
    by apply elem_of_nil in Hk.
  - intros i x m r Hi IH Hknown.
    destruct IH as [Hkeys Htotal].
    { intros a st Ha. apply (Hknown a). rewrite lookup_insert_ne; [done|].
      intros <-. congruence. }
    assert (x ∈ lifecycle_states) as Hx.
    { apply (Hknown i). by rewrite lookup_insert_eq. }
    destruct (Hkeys x Hx) as [n Hn]. unfold f. rewrite Hn.
    split.
    + intros k Hk. destruct (decide (x = k)) as [->|Hne].
      * rewrite lookup_insert_eq. by eexists.
      * rewrite lookup_insert_ne by done. by apply Hkeys.
    + rewrite map_size_insert_None by done. rewrite <-Htotal.
      assert (count_of x r = n) as Hcx by (unfold count_of; by rewrite Hn).
      unfold total_count. rewrite !count_of_insert.
      unfold lifecycle_states in Hx.
      repeat (apply elem_of_cons in Hx as [->|Hx]);
        [| | | |by apply elem_of_nil in Hx];
        repeat case_decide; try done; lia.
Qed.

Lemma states_known_exec (s : store) (o : op) :
  states_known s → states_known (exec o s).
Proof.
  intros Hs a st. rewrite exec_artifact_state.
  assert (Hins : ∀ b v, v ∈ lifecycle_states →
            <[b := v]> (artifact_state s) !! a = Some st → st ∈ lifecycle_states).
  { intros b v Hv. destruct (decide (b = a)) as [->|Hne].
    - rewrite lookup_insert_eq. by intros [= <-].
    - rewrite lookup_insert_ne by done. apply Hs. }
  destruct o as [u|now u e x sc|now u|u|u|today u|today now u p e rs|b u|b n
                |now b d|today]; try apply Hs.
  - destruct (admits_extractive _ s); [|apply Hs]. apply Hins. compute_done.
  - destruct (raised _) eqn:Hr; [apply Hs|]. apply Hins.
    rewrite transition_artifact_state_run in Hr.
    destruct (artifact_state s !! b) as [current|]; [|done].
    case_bool_decide as Hin; [|done]. by apply table_advances in Hin as (_ & ? & _).
  - destruct (artifact_state s !! b) as [current|]; [|apply Hs].
    case_bool_decide; [|apply Hs]. apply Hins. compute_done.
Qed.

(** X13: in every reachable store each artifact is in one of the four
    lifecycle states, so the per-state breakdown of the audit report misses
    none: its four counts add up to the number of artifacts. *)
Theorem audit_breakdown_counts_every_artifact :
  ∀ s today, reachable s →
    (∀ a st, artifact_state s !! a = Some st → st ∈ lifecycle_states) ∧
    ∃ rep, audit today s = (inr rep, s) ∧
      (count_of "generated" (artifact_states rep)
       + count_of "used" (artifact_states rep)
       + count_of "published" (artifact_states rep)
       + count_of "archived" (artifact_states rep))%nat
      = size (artifact_state s).
Proof.
  intros s today Hs.
  assert (states_known s) as Hknown.
  { revert s Hs. apply reachable_preserves; [|intros; by apply states_known_exec].
    intros a st. unfold init; simpl. by rewrite lookup_empty. }
  split; [exact Hknown|].
  exists (audit_report today s). split; [apply audit_report_run|].
  by apply count_states_total.
Qed.

Lemma ratio_parts (a b : nat) :
  (0 < b)%nat →
  Qnum (ratio a b) = Z.of_nat a ∧ Zpos (Qden (ratio a b)) = Z.of_nat b.
Proof.
  destruct b as [|b]; [lia|]. intros _. unfold ratio, Qdiv, Qinv, Qmult.
  simpl. split; lia.
Qed.

Lemma round_half_even_unit (n d : Z) :
  0 ≤ n → n ≤ 10000 * d → 0 < d → 0 ≤ round_half_even n d ≤ 10000.
Proof.
  intros Hn Hnd Hd. unfold round_half_even.
  pose proof (Z.div_mod n d ltac:(lia)) as Hdm.
  pose proof (Z.mod_pos_bound n d Hd) as Hm.
  assert (0 ≤ n `div` d) by (apply Z.div_pos; lia).
  assert (n `div` d ≤ 10000) by (apply Z.div_le_upper_bound; lia).
  assert (n `div` d = 10000 → n `mod` d = 0) by nia.
  repeat case_bool_decide; try destruct (Z.even _); lia.
Qed.

Lemma round4_unit (a b : nat) :
  (a ≤ b)%nat → (0 < b)%nat → unit_ratio (round4 (ratio a b)).
Proof.
  intros Hab Hb. unfold round4.
  destruct (ratio_parts a b Hb) as [-> ->].
  pose proof (round_half_even_unit (Z.of_nat a * 10000) (Z.of_nat b)
                ltac:(lia) ltac:(lia) ltac:(lia)) as Hz.
  split; rewrite Qred_correct; unfold Qle; simpl; lia.
Qed.

Lemma guarded_ratio_unit (a b : nat) :
  (a ≤ b)%nat → unit_ratio (guarded_ratio a b 0%Q).
Proof.
  intros Hab. unfold guarded_ratio. case_bool_decide.
  - by apply round4_unit.
  - split; by compute.
Qed.

Lemma length_filter_le {A} (P R : A → Prop) `{!∀ x, Decision (P x)}
    `{!∀ x, Decision (R x)} (l : list A) :
  (∀ x, P x → R x) → (length (filter P l) ≤ length (filter R l))%nat.
Proof.
  intros HPR. induction l as [|x l IH]; [done|].
  destruct (decide (P x)) as [HP|HP].
  - rewrite filter_cons_True by done. rewrite (filter_cons_True R) by auto.
    simpl. lia.
  - rewrite filter_cons_False by done.
    destruct (decide (R x)).
    + rewrite filter_cons_True by done. simpl. lia.
    + by rewrite filter_cons_False.
Qed.

(** X14: on every store [audit] returns a report whose RIM-1, RIM-3, RIM-4
    and RIM-5 lie between 0 and 1, in which the active users are no more
    than the known users and the silent reuses no more than all reuses, and
    whose totals are the sizes of the store: the number of known users, the
    length of the reuse log, the two counters. *)
Theorem audit_ratios_are_between_zero_and_one :
  ∀ today s,
    ∃ rep, audit today s = (inr rep, s) ∧
      unit_ratio (RIM_1 rep) ∧ unit_ratio (RIM_3 rep) ∧
      unit_ratio (RIM_4 rep) ∧ unit_ratio (RIM_5 rep) ∧
      (active_consenting_users rep ≤ total_users rep)%nat ∧
      (silent_reuses rep ≤ total_reuses rep)%nat ∧
      total_users rep = size (known_users s) ∧
      total_reuses rep = length (reuse_log s) ∧
      report_extractive_ingests rep = extractive_ingests s ∧
      ever_published_artifacts rep = published_count s ∧
      attributed_artifacts rep = size (attribution s).
Proof.
  intros today s. exists (audit_report today s).
  split; [apply audit_report_run|]. unfold audit_report. simpl.
  assert (count_active today s ≤ length (elements (known_users s)))%nat
    as Hactive by apply length_filter.
  assert (length (filter (λ r, disclosed r = false) (reuse_log s))
          ≤ length (reuse_log s))%nat as Hsilent by apply length_filter.
  split_and!; try done.
  - by apply guarded_ratio_unit.
  - case_bool_decide as Ht.
    + apply round4_unit; lia.
    + split; by compute.
  - apply guarded_ratio_unit. unfold count_active. apply length_filter_le.
    intros uid. unfold active_with. by intros [? _]%andb_true_iff.
  - apply guarded_ratio_unit. unfold count_active. apply length_filter_le.
    intros uid. unfold active_with. by intros [? _]%andb_true_iff.
Qed.

Lemma pending_lookup (s : store) (a st : string) :
  pending s !! a = Some st ↔
  artifact_state s !! a = Some st ∧ st ∈ ["generated"; "used"].
Proof. unfold pending. by rewrite map_lookup_filter_Some. Qed.

(** The pending artifacts after one artifact is given a state. *)
Lemma pending_size_insert (m : gmap string string) (a v : string) :
  let P := λ kv : string * string, kv.2 ∈ ["generated"; "used"] in
  (v ∈ ["generated"; "used"] →
     size (filter P (<[a := v]> m)) =
     if decide (is_Some (filter P m !! a)) then size (filter P m)
     else S (size (filter P m))) ∧
  (v ∉ ["generated"; "used"] →
     size (filter P (<[a := v]> m)) =
     if decide (is_Some (filter P m !! a)) then pred (size (filter P m))
     else size (filter P m)).
Proof.
  intros P. split; intros Hv.
  - rewrite map_filter_insert_True by done. rewrite map_size_insert.
    case_decide as Ha.
    + destruct Ha as [y ->]. done.
    + apply eq_None_not_Some in Ha. by rewrite Ha.
  - rewrite map_filter_insert_False by done.
    rewrite map_filter_delete, map_size_delete.
    case_decide as Ha.
    + destruct Ha as [y ->]. done.
    + apply eq_None_not_Some in Ha. by rewrite Ha.
Qed.

Lemma publication_budget_exec (s : store) (o : op) :
  publication_budget s → publication_budget (exec o s).
Proof.
  unfold publication_budget, pending. intros Hs.
  destruct (exec_counters o s) as [Hp He]. rewrite Hp, He.
  rewrite exec_artifact_state.
  set (P := λ kv : string * string, kv.2 ∈ ["generated"; "used"]) in *.
  destruct o as [u|now u e x sc|now u|u|u|today u|today now u p e rs|a u|a n
                |now a d|today]; simpl publishes; simpl admits_extractive;
    try lia.
  - (* an ingestion *)
    destruct (e && negb (raised (ingest today now u p e rs s))); [|lia].
    destruct (pending_size_insert (artifact_state s) (make_artifact_id p now)
                "generated") as [Hin _].
    fold P in Hin. rewrite Hin by compute_done. case_decide; lia.
  - (* a transition *)
    rewrite transition_artifact_state_run.
    destruct (artifact_state s !! a) as [current|] eqn:Ha;
      [|unfold raised; simpl; rewrite andb_false_r; lia].
    destruct (decide (n ∈ default [] (valid_transitions !! current)))
      as [Htab|Htab];
      [rewrite (bool_decide_eq_true_2 (n ∈ _)) by done
      |rewrite (bool_decide_eq_false_2 (n ∈ _)) by done;
       unfold raised; simpl; rewrite andb_false_r; lia].
    unfold raised. simpl. rewrite andb_true_r.
    destruct (pending_size_insert (artifact_state s) a n) as [Hin Hout].
    fold P in Hin, Hout.
    case_bool_decide as Hn.
    + (* into published: the artifact was used, hence pending *)
      subst n. rewrite Hout by compute_done.
      assert (current = "used") as ->.
      { assert (publishes (TransitionArtifactState a "published") s = true) as Hpub.
        { unfold publishes. rewrite transition_artifact_state_run, Ha.
          by rewrite (bool_decide_eq_true_2 ("published" ∈ _)). }
        apply publishes_from_used in Hpub as [_ Hu]. congruence. }
      assert (filter P (artifact_state s) !! a = Some "used") as Hpa.
      { apply map_lookup_filter_Some. split; [done|]. unfold P. simpl. compute_done. }
      rewrite decide_True by eauto.
      assert (size (filter P (artifact_state s)) ≠ 0)%nat.
      { apply map_size_ne_0_lookup. eauto. }
      lia.
    + destruct (decide (n ∈ ["generated"; "used"])) as [Hpend|Hpend].
      * (* into used: the artifact was generated, hence pending *)
        rewrite Hin by done.
        assert (current = "generated") as ->.
        { apply table_advances in Htab as (Hc & _ & Hrank).
          unfold lifecycle_states in Hc.
          repeat (apply elem_of_cons in Hpend as [->|Hpend]);
            [| |by apply elem_of_nil in Hpend];
            repeat (apply elem_of_cons in Hc as [->|Hc]);
            try done; try (by apply elem_of_nil in Hc);
            exfalso; revert Hrank; compute; lia. }
        rewrite decide_True; [lia|].
        exists "generated". apply map_lookup_filter_Some. split; [done|].
        unfold P. simpl. compute_done.
      * rewrite Hout by done. case_decide; lia.
  - (* a reuse *)
    destruct (artifact_state s !! a) as [current|] eqn:Ha; [|lia].
    case_bool_decide as Hc; [|lia].
    destruct (pending_size_insert (artifact_state s) a "used") as [Hin _].
    fold P in Hin. rewrite Hin by compute_done.
    rewrite decide_True; [lia|]. exists current.
    by apply map_lookup_filter_Some.
Qed.

(** X15: publications never outnumber ingestions.  In every reachable store
    [published_count] plus the number of artifacts still generated or used
    is at most [extractive_ingests], whether or not artifact ids collide; so
    RIM-6 of the audit report lies between 0 and 1. *)
Theorem publications_never_exceed_ingestions :
  ∀ s today, reachable s →
    (published_count s + size (pending s) ≤ extractive_ingests s)%nat ∧
    ∃ rep, audit today s = (inr rep, s) ∧ unit_ratio (RIM_6 rep).
Proof.
  intros s today Hs.
  assert (publication_budget s) as Hb.
  { revert s Hs.
    apply reachable_preserves; [|intros; by apply publication_budget_exec].
    unfold publication_budget, pending, init. simpl.
    rewrite map_filter_empty, map_size_empty. lia. }
  split; [exact Hb|].
  exists (audit_report today s). split; [apply audit_report_run|].
  unfold audit_report. simpl. apply guarded_ratio_unit.
  unfold publication_budget in Hb. lia.
Qed.

Lemma round4_ratio_same (n : nat) : (0 < n)%nat → round4 (ratio n n) = 1%Q.
Proof.
  intros Hn. unfold round4. destruct (ratio_parts n n Hn) as [-> ->].
  assert (round_half_even (Z.of_nat n * 10000) (Z.of_nat n) = 10000) as ->;
    [|reflexivity].
  unfold round_half_even.
  rewrite (Z.mul_comm (Z.of_nat n) 10000), Z.div_mul, Z.mod_mul by lia.
  rewrite bool_decide_eq_true_2 by lia. reflexivity.
Qed.

(** With fresh ids a call adds an artifact exactly when it is an admitted
    extractive ingestion. *)
Lemma exec_artifact_count (o : op) (s : store) :
  created_by o s ## dom (artifact_state s) →
  size (artifact_state (exec o s)) =
    (size (artifact_state s) + if admits_extractive o s then 1 else 0)%nat ∧
  (no_direct_derivative [o] = true →
   dom (attribution s) = dom (artifact_state s) →
   dom (attribution (exec o s)) = dom (artifact_state (exec o s))).
Proof.
  intros Hfresh. rewrite exec_attribution, exec_artifact_state.
  destruct o as [u|now u e x sc|now u|u|u|today u|today now u p e rs|a u|a n
                |now a d|today]; simpl admits_extractive; cbv zeta;
    try (split; [lia|done]).
  - destruct (e && negb (raised (ingest today now u p e rs s))) eqn:Hadm.
    + rewrite (admits_creates _ _ _ _ _ _ _ Hadm) in Hfresh.
      split.
      * rewrite map_size_insert_None; [lia|]. apply not_elem_of_dom.
        intros Hin. apply (Hfresh (make_artifact_id p now)); [|done].
        by apply elem_of_singleton.
      * intros _ Hdom. by rewrite !dom_insert_L, Hdom.
    + split; [lia|done].
  - rewrite transition_artifact_state_run.
    destruct (artifact_state s !! a) as [current|] eqn:Ha;
      [|unfold raised; simpl; split; [lia|done]].
    destruct (decide (n ∈ default [] (valid_transitions !! current)))
      as [Htab|Htab];
      [rewrite (bool_decide_eq_true_2 (n ∈ _)) by done
      |rewrite (bool_decide_eq_false_2 (n ∈ _)) by done;
       unfold raised; simpl; split; [lia|done]].
    unfold raised; simpl. split.
    + rewrite map_size_insert_Some by eauto. lia.
    + intros _ Hdom. by rewrite dom_insert_lookup_L by eauto.
  - destruct (artifact_state s !! a) as [current|] eqn:Ha; [|split; [lia|done]].
    case_bool_decide; [|split; [lia|done]]. split.
    + rewrite map_size_insert_Some by eauto. lia.
    + intros _ Hdom. by rewrite dom_insert_lookup_L by eauto.
Qed.

Lemma run_artifact_count (ops : list op) (s : store) :
  fresh_ids ops s = true →
  (size (artifact_state (run ops s)) + extractive_ingests s =
   size (artifact_state s) + extractive_ingests (run ops s))%nat ∧
  (no_direct_derivative ops = true →
   dom (attribution s) = dom (artifact_state s) →
   dom (attribution (run ops s)) = dom (artifact_state (run ops s))).
Proof.
  revert s. induction ops as [|o ops IH]; intros s Hfresh; [by split|].
  simpl in Hfresh. apply andb_true_iff in Hfresh as [Hnow Hrest].
  apply bool_decide_eq_true in Hnow.
  change (run (o :: ops) s) with (run ops (exec o s)).
  destruct (IH (exec o s) Hrest) as [Hsize Hdom].
  destruct (exec_artifact_count o s Hnow) as [Hsize1 Hdom1].
  destruct (exec_counters o s) as [_ He].
  split; [lia|].
  intros Hnone Hd. change (no_direct_derivative (o :: ops))
    with ((match o with RecordDerivative _ _ => false | _ => true end)
          && no_direct_derivative ops) in Hnone.
  apply andb_true_iff in Hnone as [Ho Hops].
  apply Hdom; [done|]. apply Hdom1; [|done]. simpl. by rewrite Ho.
Qed.

(** X16: when artifact ids do not collide there is exactly one artifact per
    admitted extractive ingestion; if moreover [record_derivative] is only
    called by [ingest], there is exactly one attribution record per
    ingestion, and RIM-2 is 1 as soon as something was ingested. *)
Theorem one_artifact_per_admitted_ingestion :
  ∀ ops today,
    fresh_ids ops init = true →
    size (artifact_state (run ops init)) = extractive_ingests (run ops init) ∧
    (no_direct_derivative ops = true →
     size (attribution (run ops init)) = extractive_ingests (run ops init) ∧
     ((0 < extractive_ingests (run ops init))%nat →
      ∃ rep, audit today (run ops init) = (inr rep, run ops init) ∧
             RIM_2 rep = 1%Q)).
Proof.
  intros ops today Hfresh.
  destruct (run_artifact_count ops init Hfresh) as [Hsize Hdom].
  change (size (artifact_state init)) with (size (∅ : gmap string string)) in Hsize.
  change (extractive_ingests init) with 0%nat in Hsize.
  rewrite map_size_empty in Hsize.
  split; [lia|]. intros Hnone.
  assert (size (attribution (run ops init)) = extractive_ingests (run ops init))
    as Hattr.
  { rewrite <-size_dom, Hdom, size_dom by done. lia. }
  split; [done|]. intros Hpos.
  exists (audit_report today (run ops init)). split; [apply audit_report_run|].
  unfold audit_report. simpl. rewrite Hattr. unfold guarded_ratio.
  rewrite bool_decide_eq_true_2 by done. by apply round4_ratio_same.
Qed.

End AuditExtras.

(** ** Consent over time *)

Section ConsentExtras.
Context `{lib : PyLib}.

(** X17: time only takes consent away.  If a user is not actively
    consenting at some date, the same store makes the user not actively
    consenting at every later date; and a consent stored without expiry is
    read the same at every date. *)
Theorem lapsed_consent_stays_lapsed :
  ∀ d1 d2 u s,
    (¬ date_before d2 d1 →
     is_active_extractive d1 u s = false →
     is_active_extractive d2 u s = false) ∧
    (∀ c, consent s !! u = Some c → expires c = None →
       is_active_extractive d1 u s = is_active_extractive d2 u s).
Proof.
  intros d1 d2 u s. unfold is_active_extractive. split.
  - intros Hle.
    destruct (consent s !! u) as [c|]; [|done].
    destruct (negb (extractive c)); [done|].
    destruct (expires c) as [e|]; [|done].
    case_bool_decide; [done|].
    destruct (fromisoformat_date (split_T_first e)) as [d|]; [|done].
    destruct (date_gt d1 d) eqn:H1; [|done]. intros _.
    apply date_gt_before in H1.
    assert (date_before d d2) as H2.
    { unfold date_before in *. lia. }
    apply date_gt_before in H2. by rewrite H2.
  - by intros c -> ->.
Qed.


End ConsentExtras.

(** ** What the calls of a run add up to *)

Section RunExtras.
Context `{lib : PyLib}.

Lemma round4_ratio_zero (n : nat) : (0 < n)%nat → round4 (ratio 0 n) = 0%Q.
Proof.
  intros Hn. unfold round4. destruct (ratio_parts 0 n Hn) as [-> ->].
  assert (round_half_even (Z.of_nat 0 * 10000) (Z.of_nat n) = 0) as ->;
    [|reflexivity].
  unfold round_half_even. simpl. rewrite Z.div_0_l, Z.mod_0_l by lia.
  rewrite bool_decide_eq_true_2 by lia. reflexivity.
Qed.

(** X19: RIM-3 at its ends.  With no silent reuse in the log (an empty log
    included) [audit] reports RIM-3 = 1; with a non-empty log in which every
    reuse is silent it reports RIM-3 = 0. *)
Theorem rim_3_extremes :
  ∀ today s,
    ∃ rep, audit today s = (inr rep, s) ∧
      (Forall (λ r, disclosed r = true) (reuse_log s) → RIM_3 rep = 1%Q) ∧
      (reuse_log s ≠ [] → Forall (λ r, disclosed r = false) (reuse_log s) →
       RIM_3 rep = 0%Q).
Proof.
  intros today s. exists (audit_report today s).
  split; [apply audit_report_run|]. unfold audit_report. simpl. split.
  - intros Hall.
    assert (filter (λ r, disclosed r = false) (reuse_log s) = []) as ->.
    { induction Hall as [|r l Hr _ IH]; [done|].
      rewrite filter_cons_False; [done|]. by rewrite Hr. }
    simpl. rewrite Nat.sub_0_r. case_bool_decide; [|reflexivity].
    by apply round4_ratio_same.
  - intros Hne Hall.
    assert (filter (λ r, disclosed r = false) (reuse_log s) = reuse_log s) as ->.
    { induction Hall as [|r l Hr _ IH]; [done|].
      rewrite filter_cons_True by done. f_equal. destruct l; [done|].
      by apply IH. }
    rewrite Nat.sub_diag.
    assert (0 < length (reuse_log s))%nat by (destruct (reuse_log s); simpl; [done|lia]).
    rewrite bool_decide_eq_true_2 by done. by apply round4_ratio_zero.
Qed.

(** X20: the scope check reads the required scopes as a set: two ingestions
    that differ only in the order or the repetition of their required scopes
    (or in passing none as [None] or as the empty list) have the same result
    and leave the same store. *)
Theorem ingest_reads_required_scopes_as_a_set :
  ∀ today now u p e rs rs' s,
    list_to_set (default [] rs) =@{gset string} list_to_set (default [] rs') →
    ingest today now u p e rs s = ingest today now u p e rs' s.
Proof.
  intros today now u p e rs rs' s Hset. rewrite !ingest_run, Hset.
  assert (truthy (default [] rs) = truthy (default [] rs')) as ->; [|done].
  destruct (default [] rs) as [|x l], (default [] rs') as [|y l']; try done.
  - exfalso. assert (y ∈ (∅ : gset string)) as Hy; [|by apply not_elem_of_empty in Hy].
    change (∅ : gset string) with (list_to_set (@nil string) : gset string).
    rewrite Hset. apply elem_of_list_to_set. by left.
  - exfalso. assert (x ∈ (∅ : gset string)) as Hx; [|by apply not_elem_of_empty in Hx].
    change (∅ : gset string) with (list_to_set (@nil string) : gset string).
    rewrite <-Hset. apply elem_of_list_to_set. by left.
Qed.



End RunExtras.

(** * The further properties at work on the concrete runs *)

(** X1 for the registered user of the documented scenario. *)
Lemma register_known_user_witness :
  final (register_user "u1" (demo_store consent_scenario)) =
  demo_store consent_scenario.
Proof.
  apply (proj2 (register_user_is_idempotent "u1" (demo_store consent_scenario))).
  - compute_done.
  - eexists. reflexivity.
  - eexists. reflexivity.
Defined.

(** X3: a consent change of u2 leaves u1 as it was. *)
Lemma other_user_witness :
  let o := SetConsent "2026-11-03T09:10:00" "u2" true None None in
  consent (exec (lib := sample_pylib) o (demo_store consent_scenario)) !! "u1" =
  consent (demo_store consent_scenario) !! "u1".
Proof.
  intros o.
  apply (proj1 (@calls_leave_other_users_alone sample_pylib o
                  (demo_store consent_scenario) "u1" demo_today
                  ltac:(discriminate))).
Defined.

(** X4 on the documented scenario: every record of the history of u1 has its
    entry in the anchor. *)
Lemma anchor_holds_receipts_witness :
  Forall (λ r, mkAnchor (receipt r) (timestamp r)
                 ∈ receipt_anchor (demo_store consent_scenario))
         (get_consent_history "u1" (demo_store consent_scenario)).
Proof.
  apply Forall_forall. intros r Hr.
  apply (proj2 (@anchor_holds_exactly_the_issued_receipts sample_pylib
                  (demo_store consent_scenario)
                  (demo_store_reachable consent_scenario)) "u1" r Hr).
Defined.

(** X6 on a fresh engine: the first origin of an artifact. *)
Lemma first_origin_witness :
  origins "artifact_1" (final (record_derivative "artifact_1" "u1" init)) = ["u1"].
Proof.
  destruct (record_derivative_is_idempotent_and_ordered "artifact_1" "u1" init)
    as (_ & _ & _ & Hnew & _).
  apply Hnew. apply not_elem_of_nil.
Defined.

(** X7: a scoped, non-extractive ingestion by the consenting user. *)
Lemma scoped_ingest_witness :
  returned (ingest (lib := sample_pylib) demo_today "2026-11-03 09:00:01" "u1" "x"
              false (Some ["research"]) (demo_store consent_scenario)) =
  Some (mkIngestResult "Processed" None).
Proof.
  destruct (@non_extractive_ingest_only_registers sample_pylib demo_today
              "2026-11-03 09:00:01" "u1" "x" (Some ["research"])
              (demo_store consent_scenario))
    as (_ & _ & _ & _ & Hresult).
  apply Hresult. reflexivity.
Defined.

(** X8: the extractive ingestion of the documented scenario. *)
Lemma admitted_ingest_witness :
  let r := ingest (lib := sample_pylib) demo_today "2026-11-03 09:00:01" "u1" "x"
             true None (demo_store consent_scenario) in
  artifact_state (final r) !! demo_artifact "x" "2026-11-03 09:00:01"
    = Some "generated" ∧
  extractive_ingests (final r) = 1%nat.
Proof.
  intros r.
  destruct (@admitted_extractive_ingest_creates_one_artifact sample_pylib
              demo_today "2026-11-03 09:00:01" "u1" "x" None
              (demo_store consent_scenario) eq_refl)
    as (_ & Hstate & _ & Hcount & _).
  split; [exact Hstate | exact Hcount].
Defined.

(** X9: after revocation the extractive ingestion is denied. *)
Lemma revoked_then_denied_witness :
  permission_denied
    (ingest (lib := sample_pylib) demo_today "2026-11-03 09:40:00" "u1" "x" true None
       (final (revoke_consent (lib := sample_pylib) "2026-11-03T09:30:00" "u1"
                 (demo_store consent_scenario)))).
Proof.
  apply (proj2 (proj2 (@consent_changes_govern_the_next_ingest sample_pylib))).
  by left.
Defined.

(** X10 on the documented scenario: the origins of its artifact. *)
Lemma attribution_sound_witness :
  let a := demo_artifact "x" "2026-11-03 09:00:01" in
  origins a (demo_store reuse_scenario) ≠ [] ∧
  NoDup (origins a (demo_store reuse_scenario)).
Proof.
  intros a.
  apply (proj2 (@attribution_records_are_sound sample_pylib
                  (demo_store reuse_scenario)
                  (demo_store_reachable reuse_scenario)) a).
  exists "used". vm_compute. reflexivity.
Defined.

(** X11: the first transition of the documented scenario. *)
Lemma forward_transition_witness :
  (state_rank "generated" < state_rank "used")%nat ∧
  artifact_state
    (final (transition_artifact_state (demo_artifact "x" "2026-11-03 09:00:01")
              "used" (demo_store ingest_scenario)))
    !! demo_artifact "x" "2026-11-03 09:00:01" = Some "used".
Proof.
  destruct (proj1 lifecycle_only_moves_forward
              (demo_artifact "x" "2026-11-03 09:00:01") "used"
              (demo_store ingest_scenario) "generated" eq_refl eq_refl)
    as (_ & _ & Hrank & Hstate).
  split; [exact Hrank | exact Hstate].
Defined.

(** X12: the archived artifact of the publication scenario stays archived
    over a reuse and an attempted transition. *)
Lemma archived_kept_witness :
  artifact_state
    (run (lib := sample_pylib) after_archival (demo_store publication_scenario))
    !! demo_artifact "x" "2026-11-03 09:00:01" = Some "archived".
Proof.
  apply (proj1 (@archived_and_published_are_kept sample_pylib after_archival
                  (demo_store publication_scenario)
                  (demo_artifact "x" "2026-11-03 09:00:01") eq_refl)).
  reflexivity.
Defined.

(** X13 on the publication scenario. *)
Lemma breakdown_witness :
  ∃ rep,
    audit (lib := sample_pylib) demo_today (demo_store publication_scenario) =
      (inr rep, demo_store publication_scenario) ∧
    (count_of "generated" (artifact_states rep)
     + count_of "used" (artifact_states rep)
     + count_of "published" (artifact_states rep)
     + count_of "archived" (artifact_states rep))%nat
    = size (artifact_state (demo_store publication_scenario)).
Proof.
  apply (proj2 (@audit_breakdown_counts_every_artifact sample_pylib
                  (demo_store publication_scenario) demo_today
                  (demo_store_reachable publication_scenario))).
Defined.

(** X15 on the publication scenario. *)
Lemma publication_budget_witness :
  (published_count (demo_store publication_scenario)
   + size (pending (demo_store publication_scenario))
   ≤ extractive_ingests (demo_store publication_scenario))%nat.
Proof.
  apply (proj1 (@publications_never_exceed_ingestions sample_pylib
                  (demo_store publication_scenario) demo_today
                  (demo_store_reachable publication_scenario))).
Defined.

(** X16 on the publication scenario, whose three ids differ. *)
Lemma one_artifact_each_witness :
  size (artifact_state (demo_store publication_scenario)) =
  extractive_ingests (demo_store publication_scenario).
Proof.
  apply (proj1 (@one_artifact_per_admitted_ingestion sample_pylib
                  publication_scenario demo_today eq_refl)).
Defined.

(** X17: the consent that expired on 2026-01-01 is still lapsed in 2027. *)
Lemma lapsed_witness :
  is_active_extractive (lib := sample_pylib) (mkDate 2027 1 1) "u2"
    (demo_store expired_scenario) = false.
Proof.
  apply (proj1 (@lapsed_consent_stays_lapsed sample_pylib demo_today
                  (mkDate 2027 1 1) "u2" (demo_store expired_scenario))).
  - unfold date_before, demo_today. simpl. lia.
  - reflexivity.
Defined.

(** X19 on the documented scenario: one reuse, undisclosed. *)
Lemma rim_3_witness :
  ∃ rep,
    audit (lib := sample_pylib) demo_today (demo_store reuse_scenario) =
      (inr rep, demo_store reuse_scenario) ∧
    RIM_3 rep = 0%Q.
Proof.
  destruct (@rim_3_extremes sample_pylib demo_today (demo_store reuse_scenario))
    as (rep & Hrun & _ & Hsilent).
  assert (∃ r, reuse_log (demo_store reuse_scenario) = [r] ∧ disclosed r = false)
    as (r & Hlog & Hr) by (eexists; split; vm_compute; reflexivity).
  exists rep. split; [exact Hrun|]. apply Hsilent; rewrite Hlog.
  - discriminate.
  - constructor; [exact Hr | constructor].
Defined.

(** X20: the same scopes, repeated and reordered. *)
Lemma scope_set_witness :
  ingest (lib := sample_pylib) demo_today "2026-11-03 09:00:01" "u1" "x" false
    (Some ["research"; "research"]) (demo_store consent_scenario) =
  ingest (lib := sample_pylib) demo_today "2026-11-03 09:00:01" "u1" "x" false
    (Some ["research"]) (demo_store consent_scenario).
Proof.
  apply (@ingest_reads_required_scopes_as_a_set sample_pylib). reflexivity.
Defined.
